(** * Hybrid Zoo v3: the RP2 codec and the wavelet-family selector

    A shallow embedding of [hybrid_zoo_v3.py]: [MiniRP2._estimate_gain],
    [MiniRP2.compress], [MiniRP2.decompress], [hybrid_compress] and
    [hybrid_decompress].

    - numpy float64 values are [spec_float] at precision 53, float32 values
      are 32-bit words whose arithmetic is IEEE arithmetic at precision 24
      (round to nearest even, as in [SpecFloat]); NaN carries no sign or
      payload;
    - Python exceptions are the [Err] results of a small error monad;
    - gzip/zstd, the json module, [np.var] and the wavelet transform are
      collaborators, gathered in the record [Collab]. *)

From Stdlib Require Import ZArith Bool Lia String Ascii PeanoNat List.
From Stdlib Require Import Strings.Byte.
From Stdlib Require Import Floats.SpecFloat.
Import ListNotations.
Local Open Scope Z_scope.

(** ** Python values: exceptions, bytes, slices *)

Module Py.

Inductive pyerr : Set :=
| OverflowError | ValueError | TypeError | KeyError | IndexError
| AttributeError | JSONDecodeError | BackendError | RuntimeError.

Inductive result (A : Type) : Type :=
| Ok (a : A)
| Err (e : pyerr).
Arguments Ok {A} a.
Arguments Err {A} e.

Definition bind {A B} (r : result A) (k : A -> result B) : result B :=
  match r with
  | Ok a => k a
  | Err e => Err e
  end.

Definition is_ok {A} (r : result A) : bool :=
  match r with Ok _ => true | Err _ => false end.

Definition bytes := list byte.

Definition Z_of_byte (b : byte) : Z := Z.of_N (Byte.to_N b).

Definition byte_of_Z (z : Z) : byte :=
  match Byte.of_N (Z.to_N (z mod 256)) with
  | Some b => b
  | None => x00
  end.

(** The [k] low bytes of [n], least significant first. *)
Fixpoint le_digits (k : nat) (n : Z) : bytes :=
  match k with
  | O => []
  | S k' => byte_of_Z n :: le_digits k' (n / 256)
  end.

(** [n.to_bytes(k, 'little')]: OverflowError when [n] does not fit. *)
Definition to_bytes_le (k : nat) (n : Z) : result bytes :=
  if (0 <=? n) && (n <? 256 ^ Z.of_nat k)
  then Ok (le_digits k n) else Err OverflowError.

(** [int.from_bytes(bs, 'little')], for any length of [bs]. *)
Definition from_bytes_le (bs : bytes) : Z :=
  fold_right (fun b acc => Z_of_byte b + 256 * acc) 0 bs.

(** A slice bound brought into [0 .. len]: a negative bound counts from
    the end, an out-of-range bound is clipped, nothing is raised. *)
Definition norm_index (len : nat) (i : Z) : nat :=
  if i <? 0 then Z.to_nat (Z.of_nat len + i)
  else Nat.min len (Z.to_nat i).

(** [l[lo:hi]] *)
Definition slice {A} (l : list A) (lo hi : Z) : list A :=
  let a := norm_index (length l) lo in
  let b := norm_index (length l) hi in
  firstn (b - a) (skipn a l).

(** [l[lo:]] *)
Definition slice_from {A} (l : list A) (lo : Z) : list A :=
  skipn (norm_index (length l) lo) l.

(** [l[:hi]] *)
Definition slice_to {A} (l : list A) (hi : Z) : list A :=
  firstn (norm_index (length l) hi) l.

(** [str(b)] of a bytes object, the text of its repr: [b'...'], in
    double quotes when the bytes hold a single quote and no double quote;
    backslash and the quote escaped, tab, newline and carriage return by
    letter, every other byte outside 0x20..0x7e as [\xhh]. *)
Definition squote : byte := x27.
Definition dquote : byte := x22.
Definition backslash : byte := x5c.

Definition hex_digit (n : Z) : byte :=
  nth (Z.to_nat n)
      [x30; x31; x32; x33; x34; x35; x36; x37; x38; x39;
       x61; x62; x63; x64; x65; x66] x30.

Definition repr_byte (quote b : byte) : bytes :=
  if Byte.eqb b quote || Byte.eqb b backslash then [backslash; b]
  else if Byte.eqb b x09 then [backslash; x74]
  else if Byte.eqb b x0a then [backslash; x6e]
  else if Byte.eqb b x0d then [backslash; x72]
  else if (Z_of_byte b <? 32) || (127 <=? Z_of_byte b)
       then [backslash; x78; hex_digit (Z_of_byte b / 16);
             hex_digit (Z_of_byte b mod 16)]
  else [b].

Definition bytes_repr (bs : bytes) : string :=
  let quote :=
    if existsb (Byte.eqb squote) bs && negb (existsb (Byte.eqb dquote) bs)
    then dquote else squote in
  string_of_list_byte
    (x62 :: quote :: flat_map (repr_byte quote) bs ++ [quote]).

(** [s.encode('latin1')] of a str whose characters are all below 256 *)
Definition encode_latin1 (s : string) : bytes := list_byte_of_string s.

End Py.
Export Py.

Notation "x <- r ;; k" := (bind r (fun x => k))
  (at level 61, r at next level, right associativity).

(** ** float64 *)

Definition float : Set := spec_float.

Module F64.

Definition prec : Z := 53.
Definition emax : Z := 1024.

Definition add : float -> float -> float := SFadd prec emax.
Definition sub : float -> float -> float := SFsub prec emax.
Definition mul : float -> float -> float := SFmul prec emax.
Definition div : float -> float -> float := SFdiv prec emax.
Definition neg : float -> float := SFopp.
Definition abs : float -> float := SFabs.
Definition ltb : float -> float -> bool := SFltb.
Definition leb : float -> float -> bool := SFleb.
(** [a >= b] *)
Definition geb (a b : float) : bool := SFleb b a.

(** An int used in float arithmetic, and dyadic literals [m * 2^e]. *)
Definition of_Z (z : Z) : float := binary_normalize prec emax z 0 false.
Definition dyadic (m e : Z) : float := binary_normalize prec emax m e false.

Definition zero : float := S754_zero false.
Definition one : float := S754_finite false 4503599627370496 (-52).
Definition minus_one : float := S754_finite true 4503599627370496 (-52).
Definition half : float := S754_finite false 4503599627370496 (-53).
Definition two : float := S754_finite false 4503599627370496 (-51).
(** 2000.0 *)
Definition c2000 : float := S754_finite false 8796093022208000 (-42).
(** 1e-10, the double 0x1.b7cdfd9d7bdbbp-34 *)
Definition c1e_10 : float := S754_finite false 7737125245533627 (-86).
(** 0.6745, the double 0x1.595810624dd2fp-1 *)
Definition c0_6745 : float := S754_finite false 6075355897322799 (-53).

Definition is_nan (x : float) : bool :=
  match x with S754_nan => true | _ => false end.

Definition is_zero (x : float) : bool :=
  match x with S754_zero _ => true | _ => false end.

(** Neither an infinity nor a NaN. *)
Definition is_finite (x : float) : bool :=
  match x with S754_zero _ | S754_finite _ _ _ => true | _ => false end.

(** A well-formed binary64 value: the mantissa of a finite value has the
    53 digits of a normal number, or fewer at the least exponent. *)
Definition valid (x : float) : bool := valid_binary prec emax x.

End F64.

(** ** float32, as stored: one 32-bit word per value *)

Module F32.

Definition prec : Z := 24.
Definition emax : Z := 128.

Definition word := Z.

(** sign bit, 8 exponent bits, 23 fraction bits *)
Definition join (s : bool) (E M : Z) : word :=
  (if s then 2 ^ 31 else 0) + (E mod 2 ^ 8) * 2 ^ 23 + M mod 2 ^ 23.

Definition to_bits (x : float) : word :=
  match x with
  | S754_zero s => join s 0 0
  | S754_infinity s => join s 255 0
  | S754_nan => join false 255 (2 ^ 22)
  | S754_finite s m e =>
      if Zpos m <? 2 ^ 23 then join s 0 (Zpos m)
      else join s (e + 150) (Zpos m - 2 ^ 23)
  end.

Definition of_bits (w : word) : float :=
  let s := 2 ^ 31 <=? w mod 2 ^ 32 in
  let E := (w / 2 ^ 23) mod 2 ^ 8 in
  let M := w mod 2 ^ 23 in
  if E =? 0 then
    match M with
    | Zpos m => S754_finite s m (-149)
    | _ => S754_zero s
    end
  else if E =? 255 then
    (if M =? 0 then S754_infinity s else S754_nan)
  else
    match M + 2 ^ 23 with
    | Zpos m => S754_finite s m (E - 150)
    | _ => S754_nan
    end.

(** The float32 nearest to a float64 (ties to even). *)
Definition round (x : float) : float :=
  match x with
  | S754_finite s m e => binary_round prec emax s m e
  | _ => x
  end.

(** One element of [a.astype(np.float32)]. *)
Definition of_f64 (x : float) : word := to_bits (round x).

Definition sub (a b : word) : word :=
  to_bits (SFsub prec emax (of_bits a) (of_bits b)).

Definition neg (a : word) : word := to_bits (SFopp (of_bits a)).

End F32.

(** ** numpy arrays *)

Module Np.

Definition map2 {A B C} (f : A -> B -> C) (xs : list A) (ys : list B)
  : list C :=
  map (fun p => f (fst p) (snd p)) (combine xs ys).

(** An elementwise binary operation on two 1-d arrays: equal lengths, or
    one operand of length 1 stretched over the other; ValueError
    otherwise. *)
Definition broadcast2 {A B} (f : A -> A -> B) (xs ys : list A)
  : result (list B) :=
  if Nat.eqb (length xs) (length ys) then Ok (map2 f xs ys)
  else match xs, ys with
       | [x], _ => Ok (map (f x) ys)
       | _, [y] => Ok (map (fun x => f x y) xs)
       | _, _ => Err ValueError
       end.

(** A test on the pairs of two arrays of the same length. *)
Fixpoint forallb2 {A B} (f : A -> B -> bool) (xs : list A) (ys : list B)
  : bool :=
  match xs, ys with
  | [], [] => true
  | x :: xs', y :: ys' => f x y && forallb2 f xs' ys'
  | _, _ => false
  end.

(** [-a] *)
Definition negative (a : list float) : list float := map F64.neg a.
Definition negative32 (a : list F32.word) : list F32.word := map F32.neg a.

(** [a - b] on float64 and on float32 arrays *)
Definition subtract (a b : list float) : result (list float) :=
  broadcast2 F64.sub a b.
Definition subtract32 (a b : list F32.word) : result (list F32.word) :=
  broadcast2 F32.sub a b.

(** [np.pad(a, (0, k))]: [k] trailing zeros *)
Definition pad (a : list float) (k : nat) : list float :=
  a ++ repeat F64.zero k.

(** [a.astype(np.float32)] *)
Definition astype_f32 (a : list float) : list F32.word :=
  map F32.of_f64 a.

(** [a.tobytes()] of a float32 array: four little-endian bytes a value *)
Definition tobytes (a : list F32.word) : bytes :=
  flat_map (le_digits 4) a.

(** [np.frombuffer(b, np.float32)]: ValueError unless the size is a
    multiple of four. *)
Fixpoint frombuffer (b : bytes) : result (list F32.word) :=
  match b with
  | [] => Ok []
  | b0 :: b1 :: b2 :: b3 :: rest =>
      ws <- frombuffer rest ;;
      Ok (from_bytes_le [b0; b1; b2; b3] :: ws)
  | _ => Err ValueError
  end.

(** [np.abs] *)
Definition absolute (a : list float) : list float := map F64.abs a.

(** [np.median] of a 1-d array: NaN for an empty array or one holding a
    NaN; else the middle of the sorted values, the mean of the two middle
    ones for an even length. *)
Fixpoint insert (x : float) (l : list float) : list float :=
  match l with
  | [] => [x]
  | y :: l' => if F64.leb x y then x :: l else y :: insert x l'
  end.

Definition sort (l : list float) : list float := fold_right insert [] l.

Definition median (a : list float) : float :=
  if existsb F64.is_nan a then S754_nan else
  let s := sort a in
  let n := length a in
  match n with
  | O => S754_nan
  | _ =>
      if Nat.even n
      then F64.div (F64.add (nth (n / 2 - 1) s S754_nan)
                            (nth (n / 2) s S754_nan)) F64.two
      else nth (n / 2) s S754_nan
  end.

(** [np.maximum] on one element *)
Definition maximum (a b : float) : float :=
  if F64.is_nan a || F64.is_nan b then S754_nan
  else if F64.ltb a b then b else a.

(** [np.var], two passes with the sums taken left to right:
    [mean(|a - mean(a)|^2)].  numpy adds in a different (pairwise) order,
    which can change the last bits of a sum that is not exact; the
    functions below take [np.var] as a collaborator and this one is the
    instance used where a value has to be computed. *)
Definition sum (a : list float) : float := fold_left F64.add a F64.zero.

Definition mean (a : list float) : float :=
  F64.div (sum a) (F64.of_Z (Z.of_nat (length a))).

Definition var_seq (a : list float) : float :=
  let m := mean a in
  mean (map (fun x => let d := F64.sub x m in F64.mul d d) a).

End Np.

(** ** JSON values and the collaborators *)

Set Warnings "-register-all".

Inductive json : Type :=
| JNull
| JBool (b : bool)
| JInt (z : Z)
| JStr (s : string)
| JList (l : list json)
| JDict (kv : list (string * json)).

(** The libraries the file calls.  [has_zstd] is the flag [HAS_ZSTD];
    [z_compress] and [z_decompress] are [gzip.compress(., 9)] and
    [gzip.decompress], or the zstd level-19 compressor and its
    decompressor when [HAS_ZSTD]; [json_dumps j] is
    [json.dumps(j).encode()] and [json_loads b] is [json.loads(b.decode())];
    [wavedec] and [waverec] are the pywt transform. *)
Record Collab : Type := {
  has_zstd : bool;
  z_compress : bytes -> bytes;
  z_decompress : bytes -> result bytes;
  json_dumps : json -> bytes;
  json_loads : bytes -> result json;
  np_var : list float -> float;
  wavedec : list float -> string -> Z -> result (list (list float));
  waverec : list (list F32.word) -> string -> result (list float)
}.

(** [d[k]] on a parsed JSON value: KeyError for a missing key, TypeError
    when [d] is not a dict. *)
Fixpoint assoc (k : string) (kv : list (string * json)) : option json :=
  match kv with
  | [] => None
  | (k', v) :: kv' => if String.eqb k k' then Some v else assoc k kv'
  end.

Definition getitem (d : json) (k : string) : result json :=
  match d with
  | JDict kv =>
      match assoc k kv with
      | Some v => Ok v
      | None => Err KeyError
      end
  | _ => Err TypeError
  end.

(** A parsed value used as an int, in arithmetic and as a slice bound. *)
Definition as_int (j : json) : result Z :=
  match j with
  | JInt z => Ok z
  | JBool b => Ok (if b then 1 else 0)
  | _ => Err TypeError
  end.

(** A parsed value handed to a consumer of bytes-like objects
    ([gzip.decompress], the zstd decompressor, [np.frombuffer]) or sliced
    and handed to [int.from_bytes]: TypeError.  json.loads builds None,
    bool, int, float, str, list and dict only (a float is not represented
    here), never bytes.  The two values that such a consumer does not
    refuse at once, a list in [rp2.decompress] and None in
    [gzip.decompress], are taken apart where they occur, in
    [rp2_decompress_value] and [decode_direct_value]. *)
Definition as_bytes (j : json) : result bytes :=
  match j with
  | JNull | JBool _ | JInt _ | JStr _ | JList _ | JDict _ =>
      Err TypeError
  end.

(** ** Mini RP2 *)

Module MiniRP2.

Definition sentinel : float := F64.minus_one.

(** [left], [right_f] and [delta] of [_estimate_gain] *)
Definition est_left (data : list float) : list float :=
  firstn (length data / 2) data.

Definition est_right_f (data : list float) : list float :=
  Np.negative
    (rev (firstn (length (est_left data)) (skipn (length data / 2) data))).

Definition _estimate_gain (L : Collab) (data : list float) : result float :=
  let n := length data in
  if (n <? 512)%nat then Ok sentinel else
  let left := est_left data in
  let right_f := est_right_f data in
  if negb (length left =? length right_f)%nat then Ok sentinel else
  delta <- Np.subtract left right_f ;;
  let delta_var := np_var L delta in
  let data_var := np_var L data in
  if F64.geb delta_var data_var then Ok sentinel else
  let ratio := F64.div delta_var (F64.add data_var F64.c1e_10) in
  Ok (F64.sub
        (F64.mul
           (F64.mul (F64.of_Z (Z.of_nat n * 32)) (F64.sub F64.one ratio))
           F64.half)
        F64.c2000).

Definition header (mid orig_len left_c_len : nat) : json :=
  JDict [("mid"%string, JInt (Z.of_nat mid));
         ("orig_len"%string, JInt (Z.of_nat orig_len));
         ("left_c_len"%string, JInt (Z.of_nat left_c_len))].

(** [left_p] and [flipped_p] of [compress] *)
Definition left_p (data : list float) : list float :=
  let mid := (length data / 2)%nat in
  let left := firstn mid data in
  let flipped := Np.negative (rev (skipn mid data)) in
  let max_len := Nat.max (length left) (length flipped) in
  Np.pad left (max_len - length left).

Definition flipped_p (data : list float) : list float :=
  let mid := (length data / 2)%nat in
  let left := firstn mid data in
  let flipped := Np.negative (rev (skipn mid data)) in
  let max_len := Nat.max (length left) (length flipped) in
  Np.pad flipped (max_len - length flipped).

(** The block and the seam: [None] for a direct block. *)
Definition compress (L : Collab) (data : list float)
  : result (bytes * option nat) :=
  gain <- _estimate_gain L data ;;
  if F64.ltb gain F64.zero then
    let bytes_in := Np.tobytes (Np.astype_f32 data) in
    Ok (z_compress L bytes_in, None)
  else
  let mid := (length data / 2)%nat in
  delta <- Np.subtract (left_p data) (flipped_p data) ;;
  let left_b := Np.tobytes (Np.astype_f32 (left_p data)) in
  let delta_b := Np.tobytes (Np.astype_f32 delta) in
  let c_left := z_compress L left_b in
  let c_delta := z_compress L delta_b in
  let h_bytes := json_dumps L (header mid (length data) (length c_left)) in
  h_len <- to_bytes_le 4 (Z.of_nat (length h_bytes)) ;;
  Ok (h_len ++ h_bytes ++ c_left ++ c_delta, Some mid).

(** The first six lines of [decompress]: the header and the two
    compressed streams. *)
Definition split (L : Collab) (compressed : bytes)
  : result (json * bytes * bytes) :=
  let h_len := from_bytes_le (slice_to compressed 4) in
  header <- json_loads L (slice compressed 4 (4 + h_len)) ;;
  let left_start := 4 + h_len in
  left_c_len <- bind (getitem header "left_c_len") as_int ;;
  let left_end := left_start + left_c_len in
  let c_left := slice compressed left_start left_end in
  let c_delta := slice_from compressed left_end in
  Ok (header, c_left, c_delta).

(** The rest of [decompress].  Both header fields are looked up before
    they are subtracted, so a missing [mid] is a KeyError also when
    [orig_len] is not a number. *)
Definition decode_streams (L : Collab) (header : json)
    (c_left c_delta : bytes) : result (list F32.word) :=
  left_b <- z_decompress L c_left ;;
  delta_b <- z_decompress L c_delta ;;
  left_p <- Np.frombuffer left_b ;;
  delta <- Np.frombuffer delta_b ;;
  flipped_p <- Np.subtract32 left_p delta ;;
  orig_len_v <- getitem header "orig_len" ;;
  mid_v <- getitem header "mid" ;;
  orig_len <- as_int orig_len_v ;;
  mid <- as_int mid_v ;;
  let right := Np.negative32 (slice_to (rev flipped_p) (orig_len - mid)) in
  let left := slice_to left_p mid in
  Ok (left ++ right).

Definition decompress (L : Collab) (compressed : bytes)
  : result (list F32.word) :=
  hs <- split L compressed ;;
  let '(header, c_left, c_delta) := hs in
  decode_streams L header c_left c_delta.

End MiniRP2.

(** ** Hybrid compression with the family selector *)

(** The soft shrink of [pywt.threshold(d, thresh, mode='soft')], library
    code outside the repository.  With the default [substitute=0] pywt
    computes [d * clip(1 - thresh / |d|, min=0)] on every element: the
    factor is [nan] where [thresh / |d|] is ([0 / 0]), and [clip] and the
    product keep a [nan]. *)
Definition soft (thresh x : float) : float :=
  F64.mul x
    (Np.maximum (F64.sub F64.one (F64.div thresh (F64.abs x))) F64.zero).

(** One turn of the loop over [details] in [hybrid_compress]. *)
Definition threshold (thresh_factor : float) (d : list float) : list float :=
  let thresh :=
    F64.div (F64.mul thresh_factor (Np.median (Np.absolute d))) F64.c0_6745 in
  map (soft thresh) d.

(** What [json.dumps] writes for a bytes object: it cannot serialise it and
    calls the [default] hook, [o.tolist() if hasattr(o, 'tolist') else
    str(o)]; bytes has no [tolist], so the value written is the str
    [str(o)]. *)
Definition json_default_bytes (b : bytes) : json := JStr (bytes_repr b).

Definition json_of_seam (seam : option nat) : json :=
  match seam with
  | Some mid => JInt (Z.of_nat mid)
  | None => JNull
  end.

Record artifact : Type := {
  a_approx : bytes;
  a_details : list bytes;
  a_seam : option nat;
  a_orig_len : nat;
  a_wavelet : string;
  a_levels : Z
}.

(** The dict [packed], as [json.dumps] serialises it. *)
Definition packed_json (a : artifact) : json :=
  JDict [("approx"%string, json_default_bytes (a_approx a));
         ("details"%string, JList (map json_default_bytes (a_details a)));
         ("seam"%string, json_of_seam (a_seam a));
         ("orig_len"%string, JInt (Z.of_nat (a_orig_len a)));
         ("wavelet"%string, JStr (a_wavelet a));
         ("levels"%string, JInt (a_levels a))].

(** [packed_bytes]: the serialised dict under the outer compression. *)
Definition serialize (L : Collab) (a : artifact) : bytes :=
  z_compress L (json_dumps L (packed_json a)).

(** The first two lines of [hybrid_decompress]. *)
Definition deserialize (L : Collab) (compressed : bytes) : result json :=
  raw <- z_decompress L compressed ;;
  json_loads L raw.

Record candidate : Type := {
  c_bytes : bytes;
  c_size : nat;
  c_family : string;
  c_coeffs : list (list float);
  c_seam : option nat
}.

(** The body of the [try] for one family. *)
Definition try_family (L : Collab) (data : list float) (levels : Z)
    (thresh_factor : float) (family : string) : result candidate :=
  coeffs <- wavedec L data family levels ;;
  match coeffs with
  | [] => Err IndexError
  | approx :: details =>
      r <- MiniRP2.compress L approx ;;
      let '(approx_comp, seam) := r in
      let thresholded_details := map (threshold thresh_factor) details in
      let packed :=
        {| a_approx := approx_comp;
           a_details :=
             map (fun d => Np.tobytes (Np.astype_f32 d)) thresholded_details;
           a_seam := seam;
           a_orig_len := length data;
           a_wavelet := family;
           a_levels := levels |} in
      let packed_bytes := serialize L packed in
      Ok {| c_bytes := packed_bytes;
            c_size := length packed_bytes;
            c_family := family;
            c_coeffs := coeffs;
            c_seam := seam |}
  end.

(** The five [best_*] variables; [best_size = None] is [float('inf')]. *)
Record best : Type := {
  best_compressed : option bytes;
  best_size : option nat;
  best_family : option string;
  best_coeffs : option (list (list float));
  best_seam : option nat
}.

Definition best_init : best :=
  {| best_compressed := None; best_size := None; best_family := None;
     best_coeffs := None; best_seam := None |}.

(** [packed_size < best_size] *)
Definition size_lt (packed_size : nat) (best_size : option nat) : bool :=
  match best_size with
  | None => true
  | Some b => (packed_size <? b)%nat
  end.

(** One turn of the loop over [families]: an exception in the body is
    caught, reported and the loop continues. *)
Definition step (L : Collab) (data : list float) (levels : Z)
    (thresh_factor : float) (st : best) (family : string) : best :=
  match try_family L data levels thresh_factor family with
  | Ok c =>
      if size_lt (c_size c) (best_size st) then
        {| best_compressed := Some (c_bytes c);
           best_size := Some (c_size c);
           best_family := Some (c_family c);
           best_coeffs := Some (c_coeffs c);
           best_seam := c_seam c |}
      else st
  | Err _ => st
  end.

Definition select (L : Collab) (data : list float) (families : list string)
    (levels : Z) (thresh_factor : float) : best :=
  fold_left (step L data levels thresh_factor) families best_init.

Definition hybrid_compress (L : Collab) (data : list float)
    (families : list string) (levels : Z) (thresh_factor : float)
  : result (bytes * option (list (list float)) * option string) :=
  let st := select L data families levels thresh_factor in
  match best_compressed st with
  | None => Err RuntimeError
  | Some best_compressed =>
      Ok (best_compressed, best_coeffs st, best_family st)
  end.

(** The default arguments of [hybrid_compress]. *)
Definition default_families : list string :=
  ["db4"; "bior4.4"; "sym8"; "coif5"]%string.
Definition default_levels : Z := 5.
Definition default_thresh_factor : float := F64.two.

(** The approximation stored without RP2: the [else] branch of
    [hybrid_decompress], on the bytes of a direct block. *)
Definition decode_direct (L : Collab) (approx_comp : bytes)
  : result (list F32.word) :=
  raw <- z_decompress L approx_comp ;;
  Np.frombuffer raw.

(** One detail buffer: [np.frombuffer(d.encode('latin1') if isinstance(d,
    str) else d, np.float32)]. *)
Definition detail_bytes (d : json) : result bytes :=
  match d with
  | JStr s => Ok (encode_latin1 s)
  | other => as_bytes other
  end.

Fixpoint mapM {A B} (f : A -> result B) (l : list A) : result (list B) :=
  match l with
  | [] => Ok []
  | x :: l' => y <- f x ;; ys <- mapM f l' ;; Ok (y :: ys)
  end.

(** [int.from_bytes(l, 'little')] for a list [l] of parsed values: every
    item has to be an int from 0 to 255 (a bool is one); the first item
    that is not decides between ValueError, for an int out of range, and
    TypeError. *)
Fixpoint from_bytes_items (l : list json) : result unit :=
  match l with
  | [] => Ok tt
  | JBool _ :: l' => from_bytes_items l'
  | JInt z :: l' =>
      if (0 <=? z) && (z <? 256) then from_bytes_items l'
      else Err ValueError
  | _ :: _ => Err TypeError
  end.

(** [rp2.decompress(v)] for a parsed value [v].  A list gets through
    [int.from_bytes(v[:4], 'little')] when its first items are small
    ints, and stops at [v[4:4+h_len].decode()], a list having no
    [decode]; every other value is refused by the first line: None and
    the numbers cannot be sliced, a dict cannot be indexed by a slice
    (an unhashable key up to Python 3.11), and [int.from_bytes] refuses
    a str. *)
Definition rp2_decompress_value (L : Collab) (v : json)
  : result (list F32.word) :=
  match v with
  | JList l => _ <- from_bytes_items (slice_to l 4) ;; Err AttributeError
  | other => b <- as_bytes other ;; MiniRP2.decompress L b
  end.

(** The [else] branch of [hybrid_decompress] for a parsed value [v].
    [gzip.decompress(None)] reads None as the empty input, as
    [gzip.decompress(b'')] does; the zstd decompressor refuses None, and
    both refuse every other value. *)
Definition decode_direct_value (L : Collab) (v : json)
  : result (list F32.word) :=
  match v with
  | JNull => if has_zstd L then Err TypeError else decode_direct L []
  | other => b <- as_bytes other ;; decode_direct L b
  end.

(** [hybrid_decompress].  The values come from the parser, so each use
    is taken as Python takes it: [packed['details']] is iterated, item by
    item for a list, character by character for a str and key by key for a
    dict, and a None [orig_len] as a slice bound keeps the whole array. *)
Definition hybrid_decompress (L : Collab) (compressed : bytes)
  : result (list float) :=
  packed <- deserialize L compressed ;;
  approx_comp <- getitem packed "approx" ;;
  seam <- getitem packed "seam" ;;
  approx <-
    match seam with
    | JNull => decode_direct_value L approx_comp
    | _ => rp2_decompress_value L approx_comp
    end ;;
  ds <- getitem packed "details" ;;
  details <-
    match ds with
    | JList l => mapM (fun d => bind (detail_bytes d) Np.frombuffer) l
    | JStr s =>
        mapM (fun c => Np.frombuffer [c]) (list_byte_of_string s)
    | JDict kv =>
        mapM (fun k => Np.frombuffer (encode_latin1 k)) (map fst kv)
    | _ => Err TypeError
    end ;;
  let coeffs := approx :: details in
  wavelet <- getitem packed "wavelet" ;;
  reconstructed <-
    match wavelet with
    | JStr w => waverec L coeffs w
    | _ => Err TypeError
    end ;;
  orig_len <- getitem packed "orig_len" ;;
  match orig_len with
  | JNull => Ok reconstructed
  | v => n <- as_int v ;; Ok (slice_to reconstructed n)
  end.

(** ** Reference collaborators

    Executable instances of the collaborators, used where a value has to
    be computed. *)

Module PyJson.

Definition lit (s : string) : bytes := list_byte_of_string s.

Definition join (sep : bytes) (parts : list bytes) : bytes :=
  match parts with
  | [] => []
  | p :: ps => p ++ flat_map (fun q => sep ++ q) ps
  end.

(** Decimal digits of a non-negative int, most significant first. *)
Fixpoint digits (fuel : nat) (n : Z) (acc : bytes) : bytes :=
  let acc' := byte_of_Z (48 + n mod 10) :: acc in
  match fuel with
  | O => acc'
  | S fuel' => if n <? 10 then acc' else digits fuel' (n / 10) acc'
  end.

Definition dump_int (z : Z) : bytes :=
  if z <? 0 then x2d :: digits (Z.to_nat (Z.log2 (- z))) (- z) []
  else digits (Z.to_nat (Z.log2 z)) z [].

(** A str between double quotes, escaped as [ensure_ascii] does for
    characters below 256. *)
Definition dump_char (b : byte) : bytes :=
  if Byte.eqb b dquote then [backslash; dquote]
  else if Byte.eqb b backslash then [backslash; backslash]
  else if Byte.eqb b x0a then [backslash; x6e]
  else if Byte.eqb b x0d then [backslash; x72]
  else if Byte.eqb b x09 then [backslash; x74]
  else if Byte.eqb b x08 then [backslash; x62]
  else if Byte.eqb b x0c then [backslash; x66]
  else if (Z_of_byte b <? 32) || (128 <=? Z_of_byte b)
       then [backslash; x75; x30; x30; hex_digit (Z_of_byte b / 16);
             hex_digit (Z_of_byte b mod 16)]
  else [b].

Definition dump_string (s : string) : bytes :=
  dquote :: flat_map dump_char (list_byte_of_string s) ++ [dquote].

(** [json.dumps(j).encode()] with the default separators. *)
Fixpoint dumps (j : json) : bytes :=
  match j with
  | JNull => lit "null"
  | JBool true => lit "true"
  | JBool false => lit "false"
  | JInt z => dump_int z
  | JStr s => dump_string s
  | JList l => x5b :: join (lit ", ") (map dumps l) ++ [x5d]
  | JDict kv =>
      x7b :: join (lit ", ")
               (map (fun p => dump_string (fst p) ++ lit ": " ++ dumps (snd p))
                    kv)
          ++ [x7d]
  end.

Definition is_ws (b : byte) : bool :=
  Byte.eqb b x20 || Byte.eqb b x09 || Byte.eqb b x0a || Byte.eqb b x0d.

Definition is_digit (b : byte) : bool :=
  (48 <=? Z_of_byte b) && (Z_of_byte b <=? 57).

Fixpoint skip_ws (bs : bytes) : bytes :=
  match bs with
  | b :: r => if is_ws b then skip_ws r else bs
  | [] => []
  end.

Fixpoint parse_digits (bs : bytes) (acc : Z) : Z * bytes :=
  match bs with
  | b :: r =>
      if is_digit b then parse_digits r (acc * 10 + (Z_of_byte b - 48))
      else (acc, bs)
  | [] => (acc, [])
  end.

(** An int: an optional minus, then a single 0 or digits that do not
    start with 0; a number that goes on with a fraction or an exponent is
    a float and is not read. *)
Definition parse_nat (bs : bytes) : option (Z * bytes) :=
  match bs with
  | b :: r =>
      if Byte.eqb b x30 then Some (0, r)
      else if is_digit b then Some (parse_digits bs 0)
      else None
  | [] => None
  end.

Definition parse_int (bs : bytes) : option (Z * bytes) :=
  let signed :=
    match bs with
    | b :: r =>
        if Byte.eqb b x2d then
          match parse_nat r with
          | Some (v, r') => Some (- v, r')
          | None => None
          end
        else parse_nat bs
    | [] => None
    end in
  match signed with
  | Some (v, c :: r) =>
      if Byte.eqb c x2e || Byte.eqb c x65 || Byte.eqb c x45 then None
      else Some (v, c :: r)
  | other => other
  end.

Definition hex_value (b : byte) : option Z :=
  let c := Z_of_byte b in
  if (48 <=? c) && (c <=? 57) then Some (c - 48)
  else if (97 <=? c) && (c <=? 102) then Some (c - 87)
  else if (65 <=? c) && (c <=? 70) then Some (c - 55)
  else None.

Definition unescape (c : byte) : option byte :=
  if Byte.eqb c dquote then Some dquote
  else if Byte.eqb c backslash then Some backslash
  else if Byte.eqb c x2f then Some x2f
  else if Byte.eqb c x62 then Some x08
  else if Byte.eqb c x66 then Some x0c
  else if Byte.eqb c x6e then Some x0a
  else if Byte.eqb c x72 then Some x0d
  else if Byte.eqb c x74 then Some x09
  else None.

(** The characters of a string, after its opening quote; an escape
    [\uXXXX] above 255 is not read. *)
Fixpoint parse_chars (bs : bytes) : option (bytes * bytes) :=
  match bs with
  | [] => None
  | b :: r =>
      if Byte.eqb b dquote then Some ([], r)
      else if Byte.eqb b backslash then
        match r with
        | c :: r1 =>
            if Byte.eqb c x75 then
              match r1 with
              | h1 :: h2 :: h3 :: h4 :: r2 =>
                  match hex_value h1, hex_value h2, hex_value h3,
                        hex_value h4, parse_chars r2 with
                  | Some 0, Some 0, Some a, Some b', Some (s, r3) =>
                      Some (byte_of_Z (16 * a + b') :: s, r3)
                  | _, _, _, _, _ => None
                  end
              | _ => None
              end
            else
              match unescape c, parse_chars r1 with
              | Some u, Some (s, r2) => Some (u :: s, r2)
              | _, _ => None
              end
        | [] => None
        end
      else if Z_of_byte b <? 32 then None
      else
        match parse_chars r with
        | Some (s, r') => Some (b :: s, r')
        | None => None
        end
  end.

Definition parse_string (bs : bytes) : option (string * bytes) :=
  match parse_chars bs with
  | Some (s, r) => Some (string_of_list_byte s, r)
  | None => None
  end.

(** The items of a list after [[], and of a dict after [{]. *)
Fixpoint parse_items (pv : bytes -> option (json * bytes)) (fuel : nat)
    (bs : bytes) (acc : list json) : option (list json * bytes) :=
  match fuel with
  | O => None
  | S fuel' =>
      match pv bs with
      | Some (v, r) =>
          match skip_ws r with
          | c :: r' =>
              if Byte.eqb c x2c then parse_items pv fuel' r' (v :: acc)
              else if Byte.eqb c x5d then Some (rev (v :: acc), r')
              else None
          | [] => None
          end
      | None => None
      end
  end.

(** A dict keeps one entry a key: a repeated key takes the later value. *)
Fixpoint dict_set (k : string) (v : json) (kv : list (string * json))
  : list (string * json) :=
  match kv with
  | [] => [(k, v)]
  | (k', v') :: kv' =>
      if String.eqb k k' then (k, v) :: kv' else (k', v') :: dict_set k v kv'
  end.

Fixpoint parse_members (pv : bytes -> option (json * bytes)) (fuel : nat)
    (bs : bytes) (acc : list (string * json))
  : option (list (string * json) * bytes) :=
  match fuel with
  | O => None
  | S fuel' =>
      match skip_ws bs with
      | q :: r =>
          if Byte.eqb q dquote then
            match parse_string r with
            | Some (k, r1) =>
                match skip_ws r1 with
                | c :: r2 =>
                    if Byte.eqb c x3a then
                      match pv r2 with
                      | Some (v, r3) =>
                          match skip_ws r3 with
                          | d :: r4 =>
                              if Byte.eqb d x2c
                              then parse_members pv fuel' r4 (dict_set k v acc)
                              else if Byte.eqb d x7d
                              then Some (dict_set k v acc, r4)
                              else None
                          | [] => None
                          end
                      | None => None
                      end
                    else None
                | [] => None
                end
            | None => None
            end
          else None
      | [] => None
      end
  end.

Definition starts_with (p bs : bytes) : option bytes :=
  if forallb (fun xy => Byte.eqb (fst xy) (snd xy)) (combine p bs)
     && (length p <=? length bs)%nat
  then Some (skipn (length p) bs) else None.

Fixpoint parse_value (fuel : nat) (bs : bytes) : option (json * bytes) :=
  match fuel with
  | O => None
  | S fuel' =>
      let bs := skip_ws bs in
      match bs with
      | [] => None
      | c :: r =>
          if Byte.eqb c dquote then
            match parse_string r with
            | Some (s, r') => Some (JStr s, r')
            | None => None
            end
          else if Byte.eqb c x5b then
            match skip_ws r with
            | d :: r' =>
                if Byte.eqb d x5d then Some (JList [], r')
                else
                  match parse_items (parse_value fuel') (length r) r [] with
                  | Some (l, r'') => Some (JList l, r'')
                  | None => None
                  end
            | [] => None
            end
          else if Byte.eqb c x7b then
            match skip_ws r with
            | d :: r' =>
                if Byte.eqb d x7d then Some (JDict [], r')
                else
                  match parse_members (parse_value fuel') (length r) r []
                  with
                  | Some (kv, r'') => Some (JDict kv, r'')
                  | None => None
                  end
            | [] => None
            end
          else
            match starts_with (lit "null") bs, starts_with (lit "true") bs,
                  starts_with (lit "false") bs with
            | Some r', _, _ => Some (JNull, r')
            | _, Some r', _ => Some (JBool true, r')
            | _, _, Some r' => Some (JBool false, r')
            | _, _, _ =>
                match parse_int bs with
                | Some (z, r') => Some (JInt z, r')
                | None => None
                end
            end
      end
  end.

(** [json.loads(b.decode())], for texts in ASCII whose numbers are ints. *)
Definition loads (b : bytes) : result json :=
  if existsb (fun c => 128 <=? Z_of_byte c) b then Err JSONDecodeError else
  match parse_value (S (length b)) b with
  | Some (v, r) =>
      match skip_ws r with
      | [] => Ok v
      | _ => Err JSONDecodeError
      end
  | None => Err JSONDecodeError
  end.

End PyJson.

Module Ref.

(** A stand-in for gzip that stores: the two magic bytes, then the data.
    As [gzip.decompress] does, it returns [b''] for [b''] and refuses
    data that does not start with the magic. *)
Definition stored_compress (b : bytes) : bytes := x1f :: x8b :: b.

Definition stored_decompress (c : bytes) : result bytes :=
  match c with
  | [] => Ok []
  | m0 :: m1 :: b =>
      if Byte.eqb m0 x1f && Byte.eqb m1 x8b then Ok b else Err BackendError
  | _ => Err BackendError
  end.

(** A stand-in for pywt: one split into even and odd samples whatever the
    level, ValueError for a name it does not know. *)
Definition known_wavelets : list string :=
  ["db4"; "db6"; "bior4.4"; "sym8"; "coif5"]%string.

Fixpoint evens {A} (l : list A) : list A :=
  match l with
  | x :: _ :: l' => x :: evens l'
  | other => other
  end.

Fixpoint odds {A} (l : list A) : list A :=
  match l with
  | _ :: y :: l' => y :: odds l'
  | _ => []
  end.

Fixpoint interleave {A} (a b : list A) : list A :=
  match a, b with
  | x :: a', y :: b' => x :: y :: interleave a' b'
  | _, [] => a
  | [], _ => b
  end.

Definition lazy_wavedec (data : list float) (family : string) (levels : Z)
  : result (list (list float)) :=
  if existsb (String.eqb family) known_wavelets
  then Ok [evens data; odds data] else Err ValueError.

Definition lazy_waverec (coeffs : list (list F32.word)) (family : string)
  : result (list float) :=
  if existsb (String.eqb family) known_wavelets then
    match coeffs with
    | [a; d] => Ok (map F32.of_bits (interleave a d))
    | _ => Err ValueError
    end
  else Err ValueError.

Definition L : Collab :=
  {| has_zstd := false;
     z_compress := stored_compress;
     z_decompress := stored_decompress;
     json_dumps := PyJson.dumps;
     json_loads := PyJson.loads;
     np_var := Np.var_seq;
     wavedec := lazy_wavedec;
     waverec := lazy_waverec |}.

End Ref.

(** ** The statements of the specification, and inputs to evaluate *)

Module Spec.

(** [delta] of the estimator in the spec's words: [left] minus the
    negated reverse of the right slice of the same length. *)
Definition delta (seq : list float) : list float :=
  let mid := (length seq / 2)%nat in
  Np.map2 F64.sub (firstn mid seq)
          (map F64.neg (rev (firstn mid (skipn mid seq)))).

(** [ratio = variance(delta) / (variance(seq) + 1e-10)] *)
Definition ratio (delta_var seq_var : float) : float :=
  F64.div delta_var (F64.add seq_var F64.c1e_10).

(** [gain = n * 32 * (1 - ratio) * 0.5 - 2000] *)
Definition gain (n : nat) (ratio : float) : float :=
  F64.sub
    (F64.mul
       (F64.mul (F64.of_Z (Z.of_nat n * 32)) (F64.sub F64.one ratio))
       F64.half)
    F64.c2000.

(** What decoding rebuilds for an element [r] of the right half whose
    mirror in the padded left half is [l]: the stored float32 of [l]
    minus the stored float32 of [delta = l - (-r)], negated. *)
Definition recon (l r : float) : F32.word :=
  F32.neg (F32.sub (F32.of_f64 l)
                   (F32.of_f64 (F64.sub l (F64.neg r)))).

(** The wire layout of a symmetric block:
    [lengthPrefix][headerBytes][leftComp][deltaComp]. *)
Definition left_b (seq : list float) : bytes :=
  Np.tobytes (Np.astype_f32 (MiniRP2.left_p seq)).

Definition delta_b (seq : list float) : bytes :=
  Np.tobytes
    (Np.astype_f32
       (Np.map2 F64.sub (MiniRP2.left_p seq) (MiniRP2.flipped_p seq))).

Definition left_comp (L : Collab) (seq : list float) : bytes :=
  z_compress L (left_b seq).

Definition delta_comp (L : Collab) (seq : list float) : bytes :=
  z_compress L (delta_b seq).

Definition header_bytes (L : Collab) (seq : list float) : bytes :=
  json_dumps L
    (MiniRP2.header (length seq / 2) (length seq)
                    (length (left_comp L seq))).

Definition block (L : Collab) (seq : list float) : bytes :=
  le_digits 4 (Z.of_nat (length (header_bytes L seq)))
  ++ header_bytes L seq ++ left_comp L seq ++ delta_comp L seq.

(** The loop variables after a candidate has been taken. *)
Definition winner (c : candidate) : best :=
  {| best_compressed := Some (c_bytes c);
     best_size := Some (c_size c);
     best_family := Some (c_family c);
     best_coeffs := Some (c_coeffs c);
     best_seam := c_seam c |}.

(** [c], the candidate of [family], is the smallest of the candidates
    that did not fail, and the first of that size in [families]. *)
Definition first_smallest (try : string -> result candidate)
    (families : list string) (family : string) (c : candidate) : Prop :=
  exists pre post,
    families = pre ++ family :: post /\
    try family = Ok c /\
    (forall f c', In f pre -> try f = Ok c' -> (c_size c < c_size c')%nat) /\
    (forall f c', In f post -> try f = Ok c' -> (c_size c <= c_size c')%nat).

(** The loop invariant: nothing taken and every family so far failed, or
    the variables hold the first smallest candidate so far. *)
Definition selected (try : string -> result candidate) (st : best)
    (done : list string) : Prop :=
  (st = best_init /\ forall f, In f done -> exists e, try f = Err e) \/
  (exists family c,
      st = winner c /\ first_smallest try done family c).

End Spec.

(** ** The symmetric block in the words of the specification

    What the specification says a symmetric block holds, written down
    without the functions of [MiniRP2]: the statement of the wire layout
    compares the block that [compress] returns with these. *)

Module Layout.

(** [left = seq[0..mid)], [right = seq[mid..n)] and
    [flipped = -reverse(right)], for [mid = n/2] *)
Definition left_half (seq : list float) : list float :=
  firstn (length seq / 2) seq.

Definition right_half (seq : list float) : list float :=
  skipn (length seq / 2) seq.

Definition flipped (seq : list float) : list float :=
  map F64.neg (rev (right_half seq)).

(** The shorter of [left] and [flipped] padded with trailing zeros, so
    that both have [maxLen] values *)
Definition max_len (seq : list float) : nat :=
  Nat.max (length (left_half seq)) (length (flipped seq)).

Definition zero_padded (k : nat) (a : list float) : list float :=
  a ++ repeat F64.zero (k - length a).

Definition left_padded (seq : list float) : list float :=
  zero_padded (max_len seq) (left_half seq).

Definition flipped_padded (seq : list float) : list float :=
  zero_padded (max_len seq) (flipped seq).

(** [delta = leftPadded - flippedPadded] *)
Definition delta (seq : list float) : list float :=
  Np.map2 F64.sub (left_padded seq) (flipped_padded seq).

(** [leftComp] and [deltaComp]: the float32 bytes of [leftPadded] and of
    [delta] under the backend *)
Definition left_comp (L : Collab) (seq : list float) : bytes :=
  z_compress L (Np.tobytes (Np.astype_f32 (left_padded seq))).

Definition delta_comp (L : Collab) (seq : list float) : bytes :=
  z_compress L (Np.tobytes (Np.astype_f32 (delta seq))).



End Layout.

Module Examples.

(** [concat(a, -reverse(a))] for [a] of 256 ones *)
Definition antisym : list float :=
  repeat F64.one 256 ++ repeat F64.minus_one 256.

(** 256 times 2^24, then 256 times -0.5 *)
Definition lossy : list float :=
  repeat (F64.of_Z (2 ^ 24)) 256 ++ repeat (F64.neg F64.half) 256.

Definition short : list float := map F64.of_Z [1; 2; 3; 4].

Definition detail3 : list float := map F64.of_Z [1; 10; 100].



Definition art : artifact :=
  {| a_approx := [x1f; x8b; x00; x00; x80; x3f];
     a_details := [[x00; x00; x80; x3f]; []];
     a_seam := None;
     a_orig_len := 4;
     a_wavelet := "db4";
     a_levels := 5 |}.

End Examples.

(** The dict [packed] that the body of the [try] of [hybrid_compress]
    builds for one family, before it is serialised. *)
Definition packed_of_family (L : Collab) (data : list float) (levels : Z)
    (thresh_factor : float) (family : string) : result artifact :=
  coeffs <- wavedec L data family levels ;;
  match coeffs with
  | [] => Err IndexError
  | approx :: details =>
      r <- MiniRP2.compress L approx ;;
      let '(approx_comp, seam) := r in
      let thresholded_details := map (threshold thresh_factor) details in
      Ok {| a_approx := approx_comp;
            a_details :=
              map (fun d => Np.tobytes (Np.astype_f32 d)) thresholded_details;
            a_seam := seam;
            a_orig_len := length data;
            a_wavelet := family;
            a_levels := levels |}
  end.

(** ** The benchmark around the codec *)

Module Bench.

(** [np.pad(a, (0, k))] for a width computed at run time: numpy refuses a
    negative width with ValueError. *)
Definition pad_width (a : list float) (k : Z) : result (list float) :=
  if k <? 0 then Err ValueError
  else Ok (a ++ repeat F64.zero (Z.to_nat k)).

(** The delta that [visualize_hybrid] plots when [seam] is not None, from
    [approx = coeffs[0]] and [mid = seam]. *)
Definition viz_delta (approx : list float) (seam : Z) : result (list float) :=
  let mid := seam in
  let left := slice_to approx mid in
  let flipped :=
    Np.negative (rev (slice approx mid (mid + Z.of_nat (length left)))) in
  padded <-
    pad_width flipped (Z.of_nat (length left) - Z.of_nat (length flipped)) ;;
  Np.subtract left padded.

(** [recon = hybrid_decompress(hybrid_compress(data)[0])] of
    [visualize_hybrid], with the default arguments of [hybrid_compress]. *)
Definition viz_recon (L : Collab) (data : list float) : result (list float) :=
  r <- hybrid_compress L data default_families default_levels
         default_thresh_factor ;;
  let '(compressed, _, _) := r in
  hybrid_decompress L compressed.

(** The seam that [run_benchmark] reads back from the artifact:
    [packed.get('seam')], and None when anything in the [try] raises. *)
Definition extract_seam (L : Collab) (compressed : bytes) : json :=
  match deserialize L compressed with
  | Ok (JDict kv) =>
      match assoc "seam" kv with
      | Some v => v
      | None => JNull
      end
  | _ => JNull
  end.

(** The third panel of [visualize_hybrid] for the [coeffs] and the [seam]
    that [run_benchmark] hands over: [coeffs[0]] is read for the second
    panel whatever the seam is, and the delta is computed when the seam is
    not None.  The plotting itself is left out. *)
Definition viz_panel (coeffs : option (list (list float))) (seam : json)
  : result (option (list float)) :=
  approx <-
    match coeffs with
    | Some (approx :: _) => Ok approx
    | Some [] => Err IndexError
    | None => Err TypeError
    end ;;
  match seam with
  | JNull => Ok None
  | _ =>
      mid <- as_int seam ;;
      d <- viz_delta approx mid ;;
      Ok (Some d)
  end.

(** ['Piecewise Flipped'] of [generate_tests]: ten segments, [base] at the
    even places and [-base[::-1]] at the odd ones; [base] is the value of
    [np.sin(np.linspace(0, 4*np.pi, seg_len))]. *)
Definition piecewise_flipped (base : list float) : list float :=
  concat (map (fun i => if Nat.even i then base else Np.negative (rev base))
              (seq 0 10)).

End Bench.

Module Inputs.

(** 511 zeros and one NaN *)
Definition with_nan : list float := repeat F64.zero 511 ++ [S754_nan].

(** a segment of three values *)
Definition base3 : list float := map F64.of_Z [1; 2; 3].

(** six values *)
Definition six : list float := map F64.of_Z [1; 2; 3; 4; 5; 6].

(** a band with two exact zeros among three coefficients *)
Definition sparse : list float := map F64.of_Z [0; 0; 5].

(** 1024 values.  The even samples are 256 times 15551821 / 2^18, then
    256 times -11546672 / 2^20; the odd samples are 257 zeros, then 255
    times 12665153 / 2^20.  Each of these values is a float32, and so is
    the difference of the first two. *)
Definition mirrored : list float :=
  Ref.interleave
    (repeat (F64.dyadic 15551821 (-18)) 256
     ++ repeat (F64.dyadic (-11546672) (-20)) 256)
    (repeat F64.zero 257 ++ repeat (F64.dyadic 12665153 (-20)) 255).

End Inputs.

(** * Properties *)

(** ** Bytes, words and slices *)

Lemma Z_of_byte_range (b : byte) : 0 <= Z_of_byte b < 256.
Proof.
  unfold Z_of_byte. pose proof (Byte.to_N_bounded b). lia.
Qed.

Lemma Z_of_byte_of_Z (z : Z) : Z_of_byte (byte_of_Z z) = z mod 256.
Proof.
  unfold Z_of_byte, byte_of_Z.
  pose proof (Z.mod_pos_bound z 256 ltac:(lia)) as Hr.
  destruct (Byte.of_N (Z.to_N (z mod 256))) as [b|] eqn:E.
  - apply Byte.to_of_N in E. rewrite E. lia.
  - apply Byte.of_N_None_iff in E. lia.
Qed.

Lemma length_le_digits (k : nat) (n : Z) : length (le_digits k n) = k.
Proof.
  revert n. induction k as [|k IH]; intros n; simpl; [reflexivity|].
  now rewrite IH.
Qed.

Lemma from_bytes_le_digits (k : nat) (n : Z) :
  from_bytes_le (le_digits k n) = n mod 256 ^ Z.of_nat k.
Proof.
  revert n. induction k as [|k IH]; intros n.
  - simpl. now rewrite Z.mod_1_r.
  - cbn [le_digits from_bytes_le fold_right].
    fold (from_bytes_le (le_digits k (n / 256))).
    rewrite IH, Z_of_byte_of_Z, Nat2Z.inj_succ, Z.pow_succ_r by lia.
    rewrite Z.rem_mul_r by lia. reflexivity.
Qed.

Lemma to_bytes_le_ok (n : Z) :
  0 <= n < 2 ^ 32 -> to_bytes_le 4 n = Ok (le_digits 4 n).
Proof.
  intros H. unfold to_bytes_le.
  replace (256 ^ Z.of_nat 4) with (2 ^ 32) by reflexivity.
  destruct (0 <=? n) eqn:E1; [|lia].
  destruct (n <? 2 ^ 32) eqn:E2; [reflexivity|lia].
Qed.

Lemma to_bytes_le_inv (n : Z) (b : bytes) :
  to_bytes_le 4 n = Ok b -> 0 <= n < 2 ^ 32 /\ b = le_digits 4 n.
Proof.
  unfold to_bytes_le.
  replace (256 ^ Z.of_nat 4) with (2 ^ 32) by reflexivity.
  destruct (0 <=? n) eqn:E1; destruct (n <? 2 ^ 32) eqn:E2; simpl;
    intros H; inversion H; subst; split; (lia || reflexivity).
Qed.

Lemma norm_index_nat (len k : nat) :
  norm_index len (Z.of_nat k) = Nat.min len k.
Proof.
  unfold norm_index. destruct (Z.of_nat k <? 0) eqn:E; [lia|].
  now rewrite Nat2Z.id.
Qed.

Lemma slice_to_app {A} (a b : list A) :
  slice_to (a ++ b) (Z.of_nat (length a)) = a.
Proof.
  unfold slice_to. rewrite norm_index_nat, length_app.
  replace (Nat.min (length a + length b) (length a)) with (length a + 0)%nat
    by lia.
  now rewrite firstn_app_2, firstn_O, app_nil_r.
Qed.

Lemma slice_to_app_len {A} (a b : list A) (k : nat) :
  length a = k -> slice_to (a ++ b) (Z.of_nat k) = a.
Proof. intros <-. apply slice_to_app. Qed.

Lemma slice_to_all {A} (a : list A) (k : nat) :
  (length a <= k)%nat -> slice_to a (Z.of_nat k) = a.
Proof.
  intros H. unfold slice_to. rewrite norm_index_nat.
  apply firstn_all2. lia.
Qed.

Lemma slice_from_app {A} (a b : list A) :
  slice_from (a ++ b) (Z.of_nat (length a)) = b.
Proof.
  unfold slice_from. rewrite norm_index_nat, length_app.
  replace (Nat.min (length a + length b) (length a)) with (length a) by lia.
  rewrite skipn_app, skipn_all, Nat.sub_diag. reflexivity.
Qed.

Lemma slice_mid {A} (a b c : list A) :
  slice (a ++ b ++ c) (Z.of_nat (length a))
        (Z.of_nat (length a) + Z.of_nat (length b)) = b.
Proof.
  unfold slice. rewrite <- Nat2Z.inj_add, !norm_index_nat, !length_app.
  replace (Nat.min (length a + (length b + length c)) (length a))
    with (length a) by lia.
  replace (Nat.min (length a + (length b + length c)) (length a + length b)
           - length a)%nat with (length b + 0)%nat by lia.
  rewrite skipn_app, skipn_all, Nat.sub_diag. simpl.
  now rewrite firstn_app_2, firstn_O, app_nil_r.
Qed.

Lemma frombuffer_le_digits (w : Z) (rest : bytes) :
  Np.frombuffer (le_digits 4 w ++ rest)
  = ws <- Np.frombuffer rest ;; Ok (w mod 2 ^ 32 :: ws).
Proof.
  cbn [le_digits app Np.frombuffer].
  change [byte_of_Z w; byte_of_Z (w / 256); byte_of_Z (w / 256 / 256);
          byte_of_Z (w / 256 / 256 / 256)] with (le_digits 4 w).
  rewrite from_bytes_le_digits. reflexivity.
Qed.

Lemma frombuffer_tobytes (ws : list F32.word) :
  Forall (fun w => 0 <= w < 2 ^ 32) ws ->
  Np.frombuffer (Np.tobytes ws) = Ok ws.
Proof.
  induction 1 as [|w ws Hw _ IH]; [reflexivity|].
  change (Np.tobytes (w :: ws)) with (le_digits 4 w ++ Np.tobytes ws).
  rewrite frombuffer_le_digits, IH. cbn [bind].
  now rewrite Z.mod_small.
Qed.

Lemma join_range (s : bool) (E M : Z) : 0 <= F32.join s E M < 2 ^ 32.
Proof.
  unfold F32.join.
  pose proof (Z.mod_pos_bound E (2 ^ 8) ltac:(lia)).
  pose proof (Z.mod_pos_bound M (2 ^ 23) ltac:(lia)).
  destruct s; lia.
Qed.

Lemma to_bits_range (x : float) : 0 <= F32.to_bits x < 2 ^ 32.
Proof.
  destruct x as [s|s| |s m e]; cbn [F32.to_bits]; try apply join_range.
  destruct (Z.pos m <? 2 ^ 23); apply join_range.
Qed.

Lemma astype_f32_words (a : list float) :
  Forall (fun w => 0 <= w < 2 ^ 32) (Np.astype_f32 a).
Proof.
  unfold Np.astype_f32. apply Forall_map, Forall_forall.
  intros x _. apply to_bits_range.
Qed.

Lemma frombuffer_astype (a : list float) :
  Np.frombuffer (Np.tobytes (Np.astype_f32 a)) = Ok (Np.astype_f32 a).
Proof. apply frombuffer_tobytes, astype_f32_words. Qed.

(** ** Rounding to a format, and the float32 words *)

Lemma digits2_bounds (m : positive) :
  2 ^ (Zpos (digits2_pos m) - 1) <= Zpos m < 2 ^ Zpos (digits2_pos m).
Proof.
  induction m as [p IH|p IH|]; cbn [digits2_pos].
  - rewrite Pos2Z.inj_succ.
    replace (Z.succ (Z.pos (digits2_pos p)) - 1)
      with (Z.succ (Z.pos (digits2_pos p) - 1)) by lia.
    rewrite !Z.pow_succ_r by lia. lia.
  - rewrite Pos2Z.inj_succ.
    replace (Z.succ (Z.pos (digits2_pos p)) - 1)
      with (Z.succ (Z.pos (digits2_pos p) - 1)) by lia.
    rewrite !Z.pow_succ_r by lia. lia.
  - cbn. lia.
Qed.

Lemma digits2_unique (m : positive) (k : Z) :
  2 ^ (k - 1) <= Zpos m < 2 ^ k -> Zpos (digits2_pos m) = k.
Proof.
  intros [Hlo Hhi]. pose proof (digits2_bounds m) as [Blo Bhi].
  set (d := Zpos (digits2_pos m)) in *.
  assert (0 < d) by (unfold d; lia).
  destruct (Z.lt_trichotomy d k) as [Hlt|[Heq|Hgt]]; [|exact Heq|].
  - assert (2 ^ d <= 2 ^ (k - 1)) by (apply Z.pow_le_mono_r; lia). lia.
  - destruct (Z.le_gt_cases k 0) as [Hk|Hk].
    + assert (2 ^ (k - 1) = 0) by (apply Z.pow_neg_r; lia).
      assert (2 ^ k <= 2 ^ 0) by (apply Z.pow_le_mono_r; lia).
      change (2 ^ 0) with 1 in *. lia.
    + assert (2 ^ k <= 2 ^ (d - 1)) by (apply Z.pow_le_mono_r; lia). lia.
Qed.

Lemma shr_1_m (mrs : shr_record) :
  0 <= shr_m mrs -> shr_m (shr_1 mrs) = shr_m mrs / 2.
Proof.
  destruct mrs as [m r s]. cbn [shr_m shr_1].
  destruct m as [|[p|p|]|p]; cbn [shr_m]; intros H; try lia;
    try reflexivity;
    try (apply Z.div_unique with (r := 1); lia);
    try (apply Z.div_unique with (r := 0); lia).
Qed.

Lemma pow2_xO (p : positive) : 2 ^ Z.pos p~0 = 2 ^ Z.pos p * 2 ^ Z.pos p.
Proof. rewrite Pos2Z.inj_xO, <- Z.pow_add_r by lia. f_equal. lia. Qed.

Lemma pow2_xI (p : positive) :
  2 ^ Z.pos p~1 = 2 * (2 ^ Z.pos p * 2 ^ Z.pos p).
Proof.
  rewrite Pos2Z.inj_xI, <- Z.pow_add_r, <- Z.pow_succ_r by lia. f_equal. lia.
Qed.

Lemma shr_iter_m (p : positive) (mrs : shr_record) :
  0 <= shr_m mrs ->
  shr_m (iter_pos shr_1 p mrs) = shr_m mrs / 2 ^ Zpos p.
Proof.
  revert mrs. induction p as [p IH|p IH|]; intros mrs H; cbn [iter_pos].
  - assert (H1 : 0 <= shr_m (shr_1 mrs))
      by (rewrite shr_1_m by lia; apply Z.div_pos; lia).
    assert (H2 : 0 <= shr_m (iter_pos shr_1 p (shr_1 mrs)))
      by (rewrite IH by lia; apply Z.div_pos; lia).
    rewrite IH, IH, shr_1_m by lia.
    rewrite !Z.div_div by lia. now rewrite pow2_xI.
  - assert (H2 : 0 <= shr_m (iter_pos shr_1 p mrs))
      by (rewrite IH by lia; apply Z.div_pos; lia).
    rewrite IH, IH by lia.
    rewrite !Z.div_div by lia. now rewrite pow2_xO.
  - now rewrite shr_1_m.
Qed.


Lemma Zdigits2_bounds (m : Z) :
  0 < m -> 2 ^ (Zdigits2 m - 1) <= m < 2 ^ Zdigits2 m.
Proof.
  destruct m as [|p|p]; try lia. intros _. apply digits2_bounds.
Qed.

Lemma Zdigits2_pos (m : Z) : 0 < m -> 0 < Zdigits2 m.
Proof. destruct m as [|p|p]; cbn; lia. Qed.

Lemma Zdigits2_unique (m k : Z) :
  0 < m -> 2 ^ (k - 1) <= m < 2 ^ k -> Zdigits2 m = k.
Proof.
  destruct m as [|p|p]; try lia. intros _. apply digits2_unique.
Qed.

Lemma Zdigits2_mono (a b : Z) :
  0 < a -> a <= b -> Zdigits2 a <= Zdigits2 b.
Proof.
  intros Ha Hab.
  pose proof (Zdigits2_bounds a Ha) as [La Ua].
  pose proof (Zdigits2_bounds b ltac:(lia)) as [Lb Ub].
  pose proof (Zdigits2_pos a Ha). pose proof (Zdigits2_pos b ltac:(lia)).
  destruct (Z.le_gt_cases (Zdigits2 a) (Zdigits2 b)) as [H1|H1]; [exact H1|].
  assert (2 ^ Zdigits2 b <= 2 ^ (Zdigits2 a - 1))
    by (apply Z.pow_le_mono_r; lia).
  lia.
Qed.

Lemma Zdigits2_shift (m n : Z) :
  0 < m -> 0 <= n -> 0 < m / 2 ^ n ->
  Zdigits2 (m / 2 ^ n) = Zdigits2 m - n.
Proof.
  intros Hm Hn Hq.
  pose proof (Zdigits2_bounds m Hm) as [Lm Um].
  pose proof (Zdigits2_pos m Hm) as Hd.
  assert (Hpn : 0 < 2 ^ n) by (apply Z.pow_pos_nonneg; lia).
  assert (Hge : 2 ^ n <= m).
  { destruct (Z.le_gt_cases (2 ^ n) m) as [H|H]; [exact H|].
    rewrite Z.div_small in Hq by lia. lia. }
  assert (Hnd : n <= Zdigits2 m - 1).
  { destruct (Z.le_gt_cases n (Zdigits2 m - 1)) as [H|H]; [exact H|].
    assert (2 ^ Zdigits2 m <= 2 ^ n) by (apply Z.pow_le_mono_r; lia). lia. }
  apply Zdigits2_unique; [exact Hq|]. split.
  - apply Z.div_le_lower_bound; [exact Hpn|].
    rewrite <- Z.pow_add_r by lia.
    replace (n + (Zdigits2 m - n - 1)) with (Zdigits2 m - 1) by lia.
    exact Lm.
  - apply Z.div_lt_upper_bound; [exact Hpn|].
    rewrite <- Z.pow_add_r by lia.
    replace (n + (Zdigits2 m - n)) with (Zdigits2 m) by lia.
    exact Um.
Qed.

Lemma shr_m_of_loc (m : Z) (l : location) :
  shr_m (shr_record_of_loc m l) = m.
Proof. destruct l as [|[| |]]; reflexivity. Qed.

Lemma round_nearest_even_range (m : Z) (l : location) :
  m <= round_nearest_even m l <= m + 1.
Proof.
  destruct l as [|[| |]]; cbn [round_nearest_even]; try lia.
  destruct (Z.even m); lia.
Qed.

Lemma digits2_iter_xO (m d : positive) :
  Zpos (digits2_pos (Pos.iter xO m d)) = Zpos (digits2_pos m) + Zpos d.
Proof.
  induction d as [|d IH] using Pos.peano_ind.
  - cbn. lia.
  - rewrite Pos.iter_succ. cbn [digits2_pos]. lia.
Qed.

Section Rounding.

Variables prec emax : Z.
Hypothesis Hprec : 0 < prec.

Local Notation "'fexp''" := (fexp prec emax).
Local Notation "'emin''" := (emin prec emax).

Lemma fexp_max (z : Z) : fexp' z = Z.max (z - prec) emin'.
Proof. reflexivity. Qed.

(** After the shift that brings the exponent to [fexp], the mantissa is
    zero at the least exponent, or it is canonical. *)
Lemma shr_fexp_spec (m ex : Z) (l : location) :
  0 < m -> ex <= fexp' (Zdigits2 m + ex) ->
  let mrs := fst (shr_fexp prec emax m ex l) in
  let e' := snd (shr_fexp prec emax m ex l) in
  0 <= shr_m mrs /\
  (shr_m mrs = 0 -> e' = emin') /\
  (0 < shr_m mrs -> fexp' (Zdigits2 (shr_m mrs) + e') = e').
Proof.
  intros Hm Hex. cbv zeta. unfold shr_fexp.
  set (E := fexp' (Zdigits2 m + ex)) in *.
  assert (HE : E = Z.max (Zdigits2 m + ex - prec) emin') by reflexivity.
  destruct (E - ex) as [|p|p] eqn:Hn; try lia; cbn [shr fst snd].
  - rewrite shr_m_of_loc. repeat split; intros; try fold E; lia.
  - rewrite shr_iter_m by (rewrite shr_m_of_loc; lia).
    rewrite shr_m_of_loc.
    assert (Hpn : 0 < 2 ^ Z.pos p) by (apply Z.pow_pos_nonneg; lia).
    assert (Hq : 0 <= m / 2 ^ Z.pos p) by (apply Z.div_pos; lia).
    replace (ex + Z.pos p) with E by lia.
    repeat split; [exact Hq| |].
    + intros H0.
      pose proof (Zdigits2_bounds m Hm) as [Lm Um].
      pose proof (Zdigits2_pos m Hm) as Hd.
      assert (Hlt : m < 2 ^ Z.pos p).
      { destruct (Z.lt_ge_cases m (2 ^ Z.pos p)) as [H|H]; [exact H|].
        assert (1 <= m / 2 ^ Z.pos p)
          by (apply Z.div_le_lower_bound; lia). lia. }
      assert (Zdigits2 m - 1 < Z.pos p).
      { destruct (Z.lt_ge_cases (Zdigits2 m - 1) (Z.pos p)) as [H|H];
          [exact H|].
        assert (2 ^ Z.pos p <= 2 ^ (Zdigits2 m - 1))
          by (apply Z.pow_le_mono_r; lia). lia. }
      lia.
    + intros Hpos. rewrite Zdigits2_shift by lia.
      replace (Zdigits2 m - Z.pos p + E) with (Zdigits2 m + ex) by lia.
      reflexivity.
Qed.

Lemma shr_fexp_zero (ex : Z) (l : location) :
  ex <= emin' ->
  shr_m (fst (shr_fexp prec emax 0 ex l)) = 0 /\
  snd (shr_fexp prec emax 0 ex l) = emin'.
Proof.
  intros Hex. unfold shr_fexp. cbn [Zdigits2].
  assert (HE : fexp' (0 + ex) = emin') by (rewrite fexp_max; lia).
  rewrite HE.
  destruct (emin' - ex) as [|p|p] eqn:Hn; try lia; cbn [shr fst snd].
  - rewrite shr_m_of_loc. lia.
  - rewrite shr_iter_m by (rewrite shr_m_of_loc; lia).
    rewrite shr_m_of_loc. split; [reflexivity|lia].
Qed.

(** Rounding a mantissa whose exponent is not above [fexp] gives a
    well-formed value. *)
Lemma round_aux_valid (s : bool) (m ex : Z) (l : location) :
  0 <= m ->
  (0 < m -> ex <= fexp' (Zdigits2 m + ex)) ->
  (m = 0 -> ex <= emin') ->
  valid_binary prec emax (binary_round_aux prec emax s m ex l) = true.
Proof.
  intros Hm Hex Hex0. unfold binary_round_aux.
  assert (H1 : 0 <= shr_m (fst (shr_fexp prec emax m ex l)) /\
               (shr_m (fst (shr_fexp prec emax m ex l)) = 0 ->
                snd (shr_fexp prec emax m ex l) = emin') /\
               (0 < shr_m (fst (shr_fexp prec emax m ex l)) ->
                fexp' (Zdigits2 (shr_m (fst (shr_fexp prec emax m ex l)))
                       + snd (shr_fexp prec emax m ex l))
                = snd (shr_fexp prec emax m ex l))).
  { destruct (Z.eq_dec m 0) as [->|Hne].
    - destruct (shr_fexp_zero ex l (Hex0 eq_refl)) as [Ha Hb].
      rewrite Ha, Hb. repeat split; lia.
    - apply (shr_fexp_spec m ex l); [lia|apply Hex; lia]. }
  destruct (shr_fexp prec emax m ex l) as [mrs' e'].
  cbn [fst snd] in H1. destruct H1 as (Hnn & Hz & Hc).
  pose proof (round_nearest_even_range (shr_m mrs') (loc_of_shr_record mrs'))
    as Hr.
  set (m1 := round_nearest_even (shr_m mrs') (loc_of_shr_record mrs')) in *.
  destruct (Z.eq_dec m1 0) as [H0|H0].
  - rewrite H0.
    assert (Hres : shr_m (fst (shr_fexp prec emax 0 e' loc_Exact)) = 0).
    { unfold shr_fexp. destruct (_ - e') as [|p|p]; cbn [shr fst];
        try reflexivity.
      rewrite shr_iter_m by (cbn; lia). reflexivity. }
    destruct (shr_fexp prec emax 0 e' loc_Exact) as [mrs'' e''].
    cbn [fst] in Hres. rewrite Hres. reflexivity.
  - assert (Hm1 : 0 < m1) by lia.
    assert (Hex' : e' <= fexp' (Zdigits2 m1 + e')).
    { rewrite fexp_max.
      destruct (Z.eq_dec (shr_m mrs') 0) as [Hm0|Hm0].
      - specialize (Hz Hm0). lia.
      - specialize (Hc ltac:(lia)). rewrite fexp_max in Hc.
        pose proof (Zdigits2_mono (shr_m mrs') m1 ltac:(lia) ltac:(lia)).
        lia. }
    pose proof (shr_fexp_spec m1 e' loc_Exact Hm1 Hex') as H2.
    cbv zeta in H2.
    destruct (shr_fexp prec emax m1 e' loc_Exact) as [mrs'' e''].
    cbn [fst snd] in H2. destruct H2 as (Hnn2 & _ & Hc2).
    destruct (shr_m mrs'') as [|q|q] eqn:Hq; try lia; [reflexivity|].
    destruct (e'' <=? emax - prec) eqn:Hle; [|reflexivity].
    cbn [valid_binary]. unfold bounded, canonical_mantissa.
    rewrite Hle, andb_true_r. apply Z.eqb_eq.
    apply (Hc2 ltac:(lia)).
Qed.

Lemma binary_round_valid (s : bool) (m : positive) (e : Z) :
  valid_binary prec emax (binary_round prec emax s m e) = true.
Proof.
  unfold binary_round, shl_align.
  set (E := fexp' (Z.pos (digits2_pos m) + e)).
  destruct (E - e) as [|p|p] eqn:Hn; apply round_aux_valid; try lia;
    intros _; cbn [Zdigits2].
  - fold E. lia.
  - fold E. lia.
  - rewrite digits2_iter_xO.
    replace (Z.pos (digits2_pos m) + Z.pos p + E)
      with (Z.pos (digits2_pos m) + e) by lia.
    fold E. lia.
Qed.

Lemma binary_normalize_valid (m e : Z) (szero : bool) :
  valid_binary prec emax (binary_normalize prec emax m e szero) = true.
Proof.
  destruct m as [|p|p]; cbn [binary_normalize];
    [reflexivity|apply binary_round_valid..].
Qed.

(** The quotient of two mantissas, scaled as [SFdiv] scales it, has at
    least [prec] digits unless the exponent is at most the least one. *)
Lemma div_core_digits (m1 m2 : positive) (e1 e2 : Z) :
  let '(q, e', l) := SFdiv_core_binary prec emax (Zpos m1) e1 (Zpos m2) e2 in
  0 <= q /\
  (0 < q -> e' <= fexp' (Zdigits2 q + e')) /\
  (q = 0 -> e' <= emin').
Proof.
  unfold SFdiv_core_binary. cbn [Zdigits2].
  set (d1 := Z.pos (digits2_pos m1)). set (d2 := Z.pos (digits2_pos m2)).
  set (F := fexp' (d1 + e1 - (d2 + e2))).
  assert (HF : F = Z.max (d1 + e1 - (d2 + e2) - prec) emin') by reflexivity.
  set (e' := Z.min F (e1 - e2)).
  set (sh := e1 - e2 - e').
  assert (Hsh : 0 <= sh) by (unfold sh, e'; lia).
  set (m' := match sh with
             | 0 => Z.pos m1
             | Z.pos _ => Z.shiftl (Z.pos m1) sh
             | Z.neg _ => 0
             end).
  assert (Hm' : m' = Z.pos m1 * 2 ^ sh).
  { unfold m'. destruct sh as [|p|p] eqn:E; try lia.
    - now rewrite Z.shiftl_mul_pow2 by lia. }
  assert (Hq : Z.div_eucl m' (Z.pos m2) = (m' / Z.pos m2, m' mod Z.pos m2))
    by (unfold Z.div, Z.modulo; now destruct (Z.div_eucl m' (Z.pos m2))).
  rewrite Hq.
  assert (Hp : 0 < 2 ^ sh) by (apply Z.pow_pos_nonneg; lia).
  assert (Hq0 : 0 <= m' / Z.pos m2) by (apply Z.div_pos; nia).
  assert (Hkey : emin' < e' -> prec <= Zdigits2 (m' / Z.pos m2)).
  { intros He'.
    pose proof (digits2_bounds m1) as [L1 U1].
    pose proof (digits2_bounds m2) as [L2 U2].
    fold d1 in L1, U1. fold d2 in L2, U2.
    assert (Hk : prec - 1 <= d1 + sh - d2 - 1) by (unfold sh, e' in *; lia).
    set (k := d1 + sh - d2 - 1) in *.
    assert (H2k : 2 ^ k * Z.pos m2 <= m').
    { rewrite Hm'.
      assert (2 ^ k * 2 ^ d2 = 2 ^ (d1 - 1) * 2 ^ sh).
      { rewrite <- !Z.pow_add_r by (unfold d1, d2 in *; lia).
        f_equal. unfold k. lia. }
      assert (0 < 2 ^ k) by (apply Z.pow_pos_nonneg; lia).
      nia. }
    assert (Hqk : 2 ^ k <= m' / Z.pos m2)
      by (apply Z.div_le_lower_bound; lia).
    assert (0 < 2 ^ k) by (apply Z.pow_pos_nonneg; lia).
    pose proof (Zdigits2_bounds (m' / Z.pos m2) ltac:(lia)) as [_ Uq].
    destruct (Z.le_gt_cases prec (Zdigits2 (m' / Z.pos m2))) as [H'|H'];
      [exact H'|].
    assert (2 ^ Zdigits2 (m' / Z.pos m2) <= 2 ^ k).
    { apply Z.pow_le_mono_r; [lia|].
      pose proof (Zdigits2_pos (m' / Z.pos m2) ltac:(lia)). lia. }
    lia. }
  split; [exact Hq0|]. split.
  - intros Hpos. rewrite fexp_max.
    destruct (Z.le_gt_cases e' emin') as [H|H]; [lia|].
    specialize (Hkey H). lia.
  - intros Hz. destruct (Z.le_gt_cases e' emin') as [H|H]; [exact H|].
    specialize (Hkey H). rewrite Hz in Hkey. cbn in Hkey. lia.
Qed.

Lemma SFdiv_valid (x y : float) :
  valid_binary prec emax (SFdiv prec emax x y) = true.
Proof.
  destruct x as [sx|sx| |sx mx ex]; destruct y as [sy|sy| |sy my ey];
    try reflexivity.
  unfold SFdiv.
  pose proof (div_core_digits mx my ex ey) as H.
  destruct (SFdiv_core_binary prec emax (Z.pos mx) ex (Z.pos my) ey)
    as [[q e'] l].
  destruct H as (H0 & H1 & H2). now apply round_aux_valid.
Qed.

Lemma SFsub_valid (x y : float) :
  valid_binary prec emax x = true ->
  valid_binary prec emax y = true ->
  valid_binary prec emax (SFsub prec emax x y) = true.
Proof.
  destruct x as [sx|sx| |sx mx ex]; destruct y as [sy|sy| |sy my ey];
    intros Hx Hy; try reflexivity; try exact Hx; try exact Hy.
  - destruct sx, sy; reflexivity.
  - destruct sx, sy; reflexivity.
  - apply binary_normalize_valid.
Qed.

End Rounding.

Lemma round_valid (x : float) :
  valid_binary F32.prec F32.emax (F32.round x) = true.
Proof.
  destruct x as [s|s| |s m e]; try reflexivity.
  apply binary_round_valid. reflexivity.
Qed.

Lemma valid32_inv (m : positive) (e : Z) :
  bounded F32.prec F32.emax m e = true ->
  (Zpos m < 2 ^ 23 /\ e = -149) \/
  (2 ^ 23 <= Zpos m < 2 ^ 24 /\ -149 <= e <= 104).
Proof.
  unfold bounded, canonical_mantissa. intros H.
  apply andb_prop in H. destruct H as [H1 H2].
  apply Z.eqb_eq in H1. apply Z.leb_le in H2.
  change (fexp F32.prec F32.emax (Z.pos (digits2_pos m) + e))
    with (Z.max (Z.pos (digits2_pos m) + e - 24) (-149)) in H1.
  change (F32.emax - F32.prec) with 104 in H2.
  pose proof (digits2_bounds m) as [Lo Hi].
  destruct (Z.lt_ge_cases (Zpos m) (2 ^ 23)) as [Hs|Hn].
  - left. split; [exact Hs|].
    assert (Z.pos (digits2_pos m) <= 23).
    { destruct (Z.le_gt_cases (Z.pos (digits2_pos m)) 23) as [H|H]; [exact H|].
      assert (2 ^ 23 <= 2 ^ (Z.pos (digits2_pos m) - 1))
        by (apply Z.pow_le_mono_r; lia). lia. }
    lia.
  - right.
    assert (24 <= Z.pos (digits2_pos m)).
    { destruct (Z.le_gt_cases 24 (Z.pos (digits2_pos m))) as [H|H]; [exact H|].
      assert (2 ^ Z.pos (digits2_pos m) <= 2 ^ 23)
        by (apply Z.pow_le_mono_r; lia). lia. }
    assert (Z.pos (digits2_pos m) = 24) by lia.
    replace (Z.pos (digits2_pos m)) with 24 in Hi by lia. lia.
Qed.

Lemma of_bits_join_sign (s : bool) (E M : Z) :
  0 <= E < 2 ^ 8 -> 0 <= M < 2 ^ 23 ->
  (2 ^ 31 <=? F32.join s E M mod 2 ^ 32) = s /\
  (F32.join s E M / 2 ^ 23) mod 2 ^ 8 = E /\
  F32.join s E M mod 2 ^ 23 = M.
Proof.
  intros HE HM. unfold F32.join.
  rewrite (Z.mod_small E) by lia. rewrite (Z.mod_small M) by lia.
  change (2 ^ 31) with 2147483648. change (2 ^ 32) with 4294967296.
  change (2 ^ 23) with 8388608 in *. change (2 ^ 8) with 256 in *.
  destruct s.
  - repeat split.
    + apply Z.leb_le. rewrite Z.mod_small by lia. lia.
    + replace (2147483648 + E * 8388608 + M) with (M + (256 + E) * 8388608)
        by lia.
      rewrite Z.div_add by lia. rewrite (Z.div_small M) by lia.
      replace (0 + (256 + E)) with (E + 1 * 256) by lia.
      rewrite Z.mod_add by lia. apply Z.mod_small. lia.
    + replace (2147483648 + E * 8388608 + M) with (M + (256 + E) * 8388608)
        by lia.
      rewrite Z.mod_add by lia. apply Z.mod_small. lia.
  - repeat split.
    + apply Z.leb_gt. rewrite Z.mod_small by lia. lia.
    + replace (0 + E * 8388608 + M) with (M + E * 8388608) by lia.
      rewrite Z.div_add by lia. rewrite (Z.div_small M) by lia.
      apply Z.mod_small. lia.
    + replace (0 + E * 8388608 + M) with (M + E * 8388608) by lia.
      rewrite Z.mod_add by lia. apply Z.mod_small. lia.
Qed.

Lemma of_bits_to_bits (y : float) :
  valid_binary F32.prec F32.emax y = true ->
  F32.of_bits (F32.to_bits y) = y.
Proof.
  destruct y as [s|s| |s m e]; intros Hv.
  - destruct s; reflexivity.
  - destruct s; reflexivity.
  - reflexivity.
  - cbn [valid_binary] in Hv. apply valid32_inv in Hv.
    unfold F32.to_bits, F32.of_bits.
    destruct Hv as [[Hm ->]|[Hm He]].
    + replace (Z.pos m <? 2 ^ 23) with true by (symmetry; apply Z.ltb_lt; lia).
      destruct (of_bits_join_sign s 0 (Z.pos m)) as (Hs & HE & HM); try lia.
      rewrite Hs, HE, HM. cbn [Z.eqb]. reflexivity.
    + replace (Z.pos m <? 2 ^ 23) with false by (symmetry; apply Z.ltb_ge; lia).
      destruct (of_bits_join_sign s (e + 150) (Z.pos m - 2 ^ 23))
        as (Hs & HE & HM); try lia.
      rewrite Hs, HE, HM.
      replace (e + 150 =? 0) with false by (symmetry; apply Z.eqb_neq; lia).
      replace (e + 150 =? 255) with false by (symmetry; apply Z.eqb_neq; lia).
      replace (Z.pos m - 2 ^ 23 + 2 ^ 23) with (Z.pos m) by lia.
      replace (e + 150 - 150) with e by lia. reflexivity.
Qed.

Lemma round_opp (x : float) : F32.round (SFopp x) = SFopp (F32.round x).
Proof.
  destruct x as [s|s| |s m e]; try reflexivity.
  unfold F32.round, SFopp at 1, binary_round.
  destruct (shl_align _ _ _) as [mz ez]. unfold binary_round_aux.
  destruct (shr_fexp _ _ _ _ _) as [mrs' e'].
  destruct (shr_fexp _ _ _ _ _) as [mrs'' e''].
  destruct (shr_m mrs''); try reflexivity.
  destruct (e'' <=? _); reflexivity.
Qed.

Lemma sub_self (x : float) : F64.is_finite x = true -> F64.sub x x = F64.zero.
Proof.
  destruct x as [s|s| |s m e]; try discriminate; intros _.
  - destruct s; reflexivity.
  - unfold F64.sub, SFsub. cbv zeta. rewrite Z.min_id.
    unfold shl_align. rewrite Z.sub_diag. cbn [fst].
    rewrite ?Z.sub_diag. reflexivity.
Qed.

Lemma sub32_zero (w : F32.word) :
  F32.sub w 0 = F32.to_bits (F32.of_bits w).
Proof.
  unfold F32.sub. change (F32.of_bits 0) with (S754_zero false).
  destruct (F32.of_bits w) as [s|s| |s m e]; try reflexivity.
  destruct s; reflexivity.
Qed.

Lemma recon_mirror (l : float) :
  F64.is_finite l = true ->
  Spec.recon l (F64.neg l) = F32.of_f64 (F64.neg l).
Proof.
  intros Hl. unfold Spec.recon.
  replace (F64.neg (F64.neg l)) with l
    by (destruct l as [s|s| |s m e]; cbn; now rewrite ?negb_involutive).
  rewrite sub_self by exact Hl.
  change (F32.of_f64 F64.zero) with 0.
  rewrite sub32_zero. unfold F32.neg, F32.of_f64, F64.neg.
  rewrite !(of_bits_to_bits (F32.round l)) by apply round_valid.
  now rewrite round_opp.
Qed.

(** Comparisons: for two numbers, not below is at least. *)
Lemma compare_cont_flip (p q : positive) :
  Pos.compare_cont Eq q p = CompOpp (Pos.compare_cont Eq p q).
Proof. symmetry. exact (Pos.compare_cont_antisym p q Eq). Qed.

Lemma SFcompare_flip (a b : float) :
  SFcompare b a = option_map CompOpp (SFcompare a b).
Proof.
  destruct a as [sa|sa| |sa ma ea]; destruct b as [sb|sb| |sb mb eb];
    cbn [SFcompare option_map]; try reflexivity;
    try (destruct sa; reflexivity); try (destruct sb; reflexivity);
    try (destruct sa, sb; reflexivity).
  destruct sa, sb; try reflexivity; f_equal;
    rewrite (Z.compare_antisym ea eb);
    destruct (ea ?= eb); cbn [CompOpp]; try reflexivity.
  - rewrite compare_cont_flip. now rewrite CompOpp_involutive.
  - apply compare_cont_flip.
Qed.

Lemma not_below_geb (a b : float) :
  F64.is_nan a = false -> F64.is_nan b = false ->
  F64.ltb a b = false -> F64.geb a b = true.
Proof.
  intros Ha Hb. unfold F64.ltb, F64.geb, SFltb, SFleb.
  rewrite (SFcompare_flip a b).
  destruct a as [sa|sa| |sa ma ea]; try discriminate Ha;
    destruct b as [sb|sb| |sb mb eb]; try discriminate Hb;
    destruct (SFcompare _ _) as [[| |]|] eqn:E; cbn; try congruence;
    cbn in E; try discriminate E;
    try (destruct sa; discriminate E); try (destruct sb; discriminate E).
Qed.

(** ** The gain estimator *)

Lemma half_le_rest (n : nat) : (n / 2 <= n - n / 2)%nat.
Proof.
  pose proof (Nat.div_mod_eq n 2).
  pose proof (Nat.mod_upper_bound n 2). lia.
Qed.

Lemma est_left_length (data : list float) :
  length (MiniRP2.est_left data) = (length data / 2)%nat.
Proof.
  unfold MiniRP2.est_left. rewrite length_firstn.
  pose proof (half_le_rest (length data)). lia.
Qed.

Lemma est_right_f_length (data : list float) :
  length (MiniRP2.est_right_f data) = (length data / 2)%nat.
Proof.
  unfold MiniRP2.est_right_f, Np.negative.
  rewrite length_map, length_rev, length_firstn, length_skipn, est_left_length.
  pose proof (half_le_rest (length data)). lia.
Qed.

Lemma subtract_same_length (a b : list float) :
  length a = length b -> Np.subtract a b = Ok (Np.map2 F64.sub a b).
Proof.
  intros H. unfold Np.subtract, Np.broadcast2.
  now rewrite H, Nat.eqb_refl.
Qed.

Lemma est_delta_spec (data : list float) :
  Np.subtract (MiniRP2.est_left data) (MiniRP2.est_right_f data)
  = Ok (Spec.delta data).
Proof.
  rewrite subtract_same_length
    by now rewrite est_left_length, est_right_f_length.
  unfold Spec.delta, MiniRP2.est_right_f, Np.negative.
  now rewrite est_left_length.
Qed.

Lemma estimate_gain_eq (L : Collab) (data : list float) :
  MiniRP2._estimate_gain L data
  = Ok (if (length data <? 512)%nat
           || F64.geb (np_var L (Spec.delta data)) (np_var L data)
        then MiniRP2.sentinel
        else Spec.gain (length data)
               (Spec.ratio (np_var L (Spec.delta data)) (np_var L data))).
Proof.
  unfold MiniRP2._estimate_gain.
  destruct (length data <? 512)%nat; [reflexivity|].
  rewrite est_left_length, est_right_f_length, Nat.eqb_refl.
  cbn [negb orb]. rewrite est_delta_spec. cbn [bind].
  destruct (F64.geb _ _); reflexivity.
Qed.

(** C3: the estimator is a function of its input that returns the sentinel
    -1.0, which is negative, when [n < 512] or [variance(delta) >=
    variance(seq)], and otherwise exactly
    [n * 32 * (1 - ratio) * 0.5 - 2000] with
    [ratio = variance(delta) / (variance(seq) + 1e-10)], [delta] being
    [left] minus the negated reverse of the right slice of equal length. *)
Theorem C3_estimate_gain (L : Collab) (data : list float) :
  let n := length data in
  let delta_var := np_var L (Spec.delta data) in
  let data_var := np_var L data in
  F64.ltb MiniRP2.sentinel F64.zero = true /\
  MiniRP2._estimate_gain L data
  = Ok (if (n <? 512)%nat || F64.geb delta_var data_var
        then MiniRP2.sentinel
        else Spec.gain n (Spec.ratio delta_var data_var)).
Proof.
  cbv zeta. split; [reflexivity|]. apply estimate_gain_eq.
Qed.

(** C10: the two slices compared by the estimator always have the same
    length, [n - mid >= mid] for [mid = n / 2] rounded down, so the test
    on unequal lengths never fires; for an input of length [n >= 512] the
    sentinel is returned through the variance comparison only. *)
Theorem C10_length_guard_unreachable (L : Collab) (data : list float) :
  (512 <= length data)%nat ->
  (length data / 2 <= length data - length data / 2)%nat /\
  length (MiniRP2.est_left data) = length (MiniRP2.est_right_f data) /\
  negb (length (MiniRP2.est_left data)
        =? length (MiniRP2.est_right_f data))%nat = false /\
  MiniRP2._estimate_gain L data
  = Ok (if F64.geb (np_var L (Spec.delta data)) (np_var L data)
        then MiniRP2.sentinel
        else Spec.gain (length data)
               (Spec.ratio (np_var L (Spec.delta data)) (np_var L data))).
Proof.
  intros Hn. split; [apply half_le_rest|].
  rewrite est_left_length, est_right_f_length, Nat.eqb_refl.
  repeat split; try reflexivity.
  rewrite estimate_gain_eq.
  destruct (length data <? 512)%nat eqn:E; [|reflexivity].
  apply Nat.ltb_lt in E. lia.
Qed.

Lemma C10_witness :
  (512 <= length Examples.antisym)%nat /\
  MiniRP2._estimate_gain Ref.L Examples.antisym
  = Ok (if F64.geb (np_var Ref.L (Spec.delta Examples.antisym))
                   (np_var Ref.L Examples.antisym)
        then MiniRP2.sentinel
        else Spec.gain (length Examples.antisym)
               (Spec.ratio (np_var Ref.L (Spec.delta Examples.antisym))
                           (np_var Ref.L Examples.antisym))).
Proof.
  assert (H : (512 <= length Examples.antisym)%nat)
    by (vm_compute; apply le_n).
  split; [exact H|].
  apply (C10_length_guard_unreachable Ref.L Examples.antisym H).
Defined.

(** ** Direct blocks *)

(** C2 (amended): a sequence with [n < 512], or with [variance(delta) >=
    variance(seq)], which for two variances that are numbers is
    [variance(delta)] not below [variance(seq)], is encoded as a direct
    block, the backend-compressed float32 bytes with no seam, and decoding
    that block gives the sequence cast to float32, when the backend
    restores those bytes. *)
Theorem C2_direct_roundtrip (L : Collab) (data : list float) :
  let bytes_in := Np.tobytes (Np.astype_f32 data) in
  let delta_var := np_var L (Spec.delta data) in
  let data_var := np_var L data in
  (length data < 512)%nat \/
  F64.geb delta_var data_var = true \/
  (F64.is_nan delta_var = false /\ F64.is_nan data_var = false /\
   F64.ltb delta_var data_var = false) ->
  z_decompress L (z_compress L bytes_in) = Ok bytes_in ->
  MiniRP2.compress L data = Ok (z_compress L bytes_in, None) /\
  decode_direct L (z_compress L bytes_in) = Ok (Np.astype_f32 data).
Proof.
  cbv zeta. intros Hcase Hback. split.
  - unfold MiniRP2.compress. rewrite estimate_gain_eq.
    replace ((length data <? 512)%nat
             || F64.geb (np_var L (Spec.delta data)) (np_var L data))
      with true.
    + reflexivity.
    + destruct Hcase as [Hn|[Hv|(Ha & Hb & Hlt)]].
      * apply Nat.ltb_lt in Hn. now rewrite Hn.
      * rewrite Hv. now rewrite orb_true_r.
      * rewrite (not_below_geb _ _ Ha Hb Hlt). now rewrite orb_true_r.
  - unfold decode_direct. rewrite Hback. cbn [bind].
    apply frombuffer_astype.
Qed.

Lemma C2_witness :
  MiniRP2.compress Ref.L Examples.short
  = Ok (z_compress Ref.L (Np.tobytes (Np.astype_f32 Examples.short)), None) /\
  decode_direct Ref.L
    (z_compress Ref.L (Np.tobytes (Np.astype_f32 Examples.short)))
  = Ok (Np.astype_f32 Examples.short).
Proof.
  apply (C2_direct_roundtrip Ref.L Examples.short).
  - left. vm_compute. repeat constructor.
  - reflexivity.
Defined.

(** C2, as stated, fails: [Inputs.with_nan] has 512 values and the
    variance of its delta is not below its variance, both being NaN, yet
    [compress] returns a symmetric block with the seam 256 and no direct
    block. *)
Lemma C2_counterexample :
  length Inputs.with_nan = 512%nat /\
  F64.ltb (np_var Ref.L (Spec.delta Inputs.with_nan))
          (np_var Ref.L Inputs.with_nan) = false /\
  MiniRP2.compress Ref.L Inputs.with_nan
  = Ok (Spec.block Ref.L Inputs.with_nan, Some 256%nat) /\
  (forall blk, MiniRP2.compress Ref.L Inputs.with_nan <> Ok (blk, None)).
Proof.
  assert (H : MiniRP2.compress Ref.L Inputs.with_nan
              = Ok (Spec.block Ref.L Inputs.with_nan, Some 256%nat))
    by (vm_compute; reflexivity).
  split; [reflexivity|]. split; [vm_compute; reflexivity|].
  split; [exact H|].
  intros blk Hb. rewrite H in Hb. discriminate Hb.
Qed.

(** ** Symmetric blocks *)

Lemma map2_length {A B C} (f : A -> B -> C) (a : list A) (b : list B) :
  length (Np.map2 f a b) = Nat.min (length a) (length b).
Proof. unfold Np.map2. now rewrite length_map, length_combine. Qed.

Lemma map2_app {A B C} (f : A -> B -> C) (a a' : list A) (b b' : list B) :
  length a = length b ->
  Np.map2 f (a ++ a') (b ++ b') = Np.map2 f a b ++ Np.map2 f a' b'.
Proof.
  revert b. induction a as [|x a IH]; intros [|y b] H; try discriminate.
  - reflexivity.
  - injection H as H. unfold Np.map2 in *. cbn. now rewrite IH.
Qed.

Lemma map2_rev {A B C} (f : A -> B -> C) (a : list A) (b : list B) :
  length a = length b ->
  rev (Np.map2 f a b) = Np.map2 f (rev a) (rev b).
Proof.
  revert b. induction a as [|x a IH]; intros [|y b] H; try discriminate.
  - reflexivity.
  - injection H as H. cbn [rev].
    rewrite map2_app by now rewrite !length_rev.
    rewrite <- IH by assumption. reflexivity.
Qed.

Lemma map2_fuse {A B C D E} (f : C -> D -> E) (g : A -> C) (h : B -> D)
    (k : A -> A -> B) (a b : list A) :
  Np.map2 f (map g a) (map h (Np.map2 k a b))
  = Np.map2 (fun x y => f (g x) (h (k x y))) a b.
Proof.
  revert b. induction a as [|x a IH]; intros [|y b]; try reflexivity.
  unfold Np.map2 in *. cbn. now rewrite IH.
Qed.

Lemma map2_map_r {A B B' C} (f : A -> B -> C) (h : B' -> B)
    (a : list A) (b : list B') :
  Np.map2 f a (map h b) = Np.map2 (fun x y => f x (h y)) a b.
Proof.
  revert b. induction a as [|x a IH]; intros [|y b]; try reflexivity.
  unfold Np.map2 in *. cbn. now rewrite IH.
Qed.

Lemma map_map2 {A B C D} (g : C -> D) (f : A -> B -> C)
    (a : list A) (b : list B) :
  map g (Np.map2 f a b) = Np.map2 (fun x y => g (f x y)) a b.
Proof. unfold Np.map2. now rewrite map_map. Qed.

Lemma left_p_eq (data : list float) :
  MiniRP2.left_p data
  = firstn (length data / 2) data
    ++ repeat F64.zero (length data - length data / 2 - length data / 2).
Proof.
  unfold MiniRP2.left_p, Np.pad, Np.negative.
  rewrite length_map, length_rev, length_skipn, length_firstn.
  pose proof (half_le_rest (length data)).
  do 2 f_equal. lia.
Qed.

Lemma flipped_p_eq (data : list float) :
  MiniRP2.flipped_p data
  = map F64.neg (rev (skipn (length data / 2) data)).
Proof.
  unfold MiniRP2.flipped_p, Np.pad, Np.negative.
  rewrite length_map, length_rev, length_skipn, length_firstn.
  pose proof (half_le_rest (length data)).
  replace (Nat.max _ _ - _)%nat with 0%nat by lia.
  apply app_nil_r.
Qed.

Lemma left_p_length (data : list float) :
  length (MiniRP2.left_p data) = (length data - length data / 2)%nat.
Proof.
  rewrite left_p_eq, length_app, length_firstn, repeat_length.
  pose proof (half_le_rest (length data)). lia.
Qed.

Lemma flipped_p_length (data : list float) :
  length (MiniRP2.flipped_p data) = (length data - length data / 2)%nat.
Proof.
  now rewrite flipped_p_eq, length_map, length_rev, length_skipn.
Qed.

Lemma compress_delta (data : list float) :
  Np.subtract (MiniRP2.left_p data) (MiniRP2.flipped_p data)
  = Ok (Np.map2 F64.sub (MiniRP2.left_p data) (MiniRP2.flipped_p data)).
Proof.
  apply subtract_same_length.
  now rewrite left_p_length, flipped_p_length.
Qed.

Lemma compress_symmetric (L : Collab) (data : list float) (g : float) :
  MiniRP2._estimate_gain L data = Ok g ->
  F64.ltb g F64.zero = false ->
  Z.of_nat (length (Spec.header_bytes L data)) < 2 ^ 32 ->
  MiniRP2.compress L data
  = Ok (Spec.block L data, Some (length data / 2)%nat).
Proof.
  intros Hg Hlt Hlen. unfold MiniRP2.compress.
  rewrite Hg. cbn [bind]. rewrite Hlt, compress_delta. cbn [bind].
  fold (Spec.delta_b data) (Spec.left_b data).
  fold (Spec.left_comp L data) (Spec.delta_comp L data).
  fold (Spec.header_bytes L data).
  rewrite to_bytes_le_ok by lia. reflexivity.
Qed.

Lemma compress_symmetric_inv (L : Collab) (data : list float)
    (blk : bytes) (mid : nat) :
  MiniRP2.compress L data = Ok (blk, Some mid) ->
  mid = (length data / 2)%nat /\
  blk = Spec.block L data /\
  Z.of_nat (length (Spec.header_bytes L data)) < 2 ^ 32 /\
  exists g, MiniRP2._estimate_gain L data = Ok g /\
            F64.ltb g F64.zero = false.
Proof.
  unfold MiniRP2.compress. rewrite estimate_gain_eq. cbn [bind].
  match goal with |- context [F64.ltb ?x F64.zero] =>
    set (g := x); destruct (F64.ltb g F64.zero) eqn:Hlt end.
  - discriminate.
  - rewrite compress_delta. cbn [bind].
    fold (Spec.delta_b data) (Spec.left_b data).
    fold (Spec.left_comp L data) (Spec.delta_comp L data).
    fold (Spec.header_bytes L data).
    destruct (to_bytes_le 4 _) as [hl|e] eqn:E; cbn [bind]; [|discriminate].
    apply to_bytes_le_inv in E. destruct E as [Hr ->].
    intros H. injection H as <- <-.
    repeat split; try lia. exists g. split; [reflexivity|assumption].
Qed.

Lemma layout_slices (pre hb cl cd : bytes) :
  length pre = 4%nat ->
  let blk := pre ++ hb ++ cl ++ cd in
  let h_len := Z.of_nat (length hb) in
  let left_c_len := Z.of_nat (length cl) in
  slice_to blk 4 = pre /\
  slice blk 4 (4 + h_len) = hb /\
  slice blk (4 + h_len) (4 + h_len + left_c_len) = cl /\
  slice_from blk (4 + h_len + left_c_len) = cd.
Proof.
  intros Hpre. cbv zeta.
  assert (H4 : 4 = Z.of_nat (length pre)) by (rewrite Hpre; reflexivity).
  repeat split.
  - rewrite H4. apply slice_to_app.
  - rewrite H4. apply slice_mid.
  - replace (4 + Z.of_nat (length hb))
      with (Z.of_nat (length (pre ++ hb)))
      by (rewrite length_app, Hpre; lia).
    rewrite (app_assoc pre hb). apply slice_mid.
  - replace (4 + Z.of_nat (length hb) + Z.of_nat (length cl))
      with (Z.of_nat (length ((pre ++ hb) ++ cl)))
      by (rewrite !length_app, Hpre; lia).
    rewrite (app_assoc pre hb), (app_assoc (pre ++ hb) cl).
    apply slice_from_app.
Qed.

Lemma split_layout (L : Collab) (hb cl cd : bytes) (hd : json) :
  Z.of_nat (length hb) < 2 ^ 32 ->
  json_loads L hb = Ok hd ->
  bind (getitem hd "left_c_len") as_int = Ok (Z.of_nat (length cl)) ->
  MiniRP2.split L (le_digits 4 (Z.of_nat (length hb)) ++ hb ++ cl ++ cd)
  = Ok (hd, cl, cd).
Proof.
  intros Hlen Hloads Hget. unfold MiniRP2.split.
  destruct (layout_slices (le_digits 4 (Z.of_nat (length hb))) hb cl cd
              (length_le_digits 4 _)) as (F1 & F2 & F3 & F4).
  rewrite F1, from_bytes_le_digits.
  replace (256 ^ Z.of_nat 4) with (2 ^ 32) by reflexivity.
  rewrite Z.mod_small by lia.
  rewrite F2, Hloads. cbn [bind]. rewrite Hget. cbn [bind].
  rewrite F3, F4. reflexivity.
Qed.

Lemma forallb2_Forall2 {A B} (f : A -> B -> bool) (a : list A) (b : list B) :
  Np.forallb2 f a b = true -> Forall2 (fun x y => f x y = true) a b.
Proof.
  revert b. induction a as [|x a IH]; intros [|y b] H; try discriminate.
  - constructor.
  - cbn in H. apply andb_prop in H. destruct H as [H1 H2].
    constructor; [exact H1|now apply IH].
Qed.

Lemma recon_check (a r : list float) :
  Np.forallb2 (fun l x => Spec.recon l x =? F32.of_f64 x) a r = true ->
  Forall2 (fun l x => Spec.recon l x = F32.of_f64 x) a r.
Proof.
  intros H. apply forallb2_Forall2 in H.
  eapply Forall2_impl; [|exact H].
  intros l x Hx. now apply Z.eqb_eq.
Qed.

Lemma map2_recon (a : list float) (r : list float) :
  Forall2 (fun l x => Spec.recon l x = F32.of_f64 x) a r ->
  Np.map2 Spec.recon a r = Np.astype_f32 r.
Proof.
  induction 1 as [|l x a r H _ IH]; [reflexivity|].
  unfold Np.map2, Np.astype_f32 in *. cbn. now rewrite H, IH.
Qed.

Lemma decode_streams_symmetric (L : Collab) (data : list float) :
  z_decompress L (Spec.left_comp L data) = Ok (Spec.left_b data) ->
  z_decompress L (Spec.delta_comp L data) = Ok (Spec.delta_b data) ->
  MiniRP2.decode_streams L
    (MiniRP2.header (length data / 2) (length data)
                    (length (Spec.left_comp L data)))
    (Spec.left_comp L data) (Spec.delta_comp L data)
  = Ok (Np.astype_f32 (firstn (length data / 2) data)
        ++ Np.map2 Spec.recon (rev (MiniRP2.left_p data))
                   (skipn (length data / 2) data)).
Proof.
  intros Hl Hd. unfold MiniRP2.decode_streams.
  rewrite Hl, Hd. cbn [bind]. unfold Spec.left_b, Spec.delta_b.
  rewrite !frombuffer_astype. cbn [bind].
  pose proof (half_le_rest (length data)) as Hhalf.
  unfold Np.subtract32, Np.broadcast2, Np.astype_f32.
  rewrite !length_map, map2_length, left_p_length, flipped_p_length.
  rewrite Nat.min_id, Nat.eqb_refl. cbn [bind].
  change (getitem (MiniRP2.header (length data / 2) (length data)
                     (length (Spec.left_comp L data))) "orig_len")
    with (Ok (JInt (Z.of_nat (length data)))).
  change (getitem (MiniRP2.header (length data / 2) (length data)
                     (length (Spec.left_comp L data))) "mid")
    with (Ok (JInt (Z.of_nat (length data / 2)))).
  cbn [bind as_int]. f_equal. f_equal.
  - rewrite left_p_eq, map_app.
    apply slice_to_app_len. rewrite length_map, length_firstn. lia.
  - rewrite map2_fuse.
    replace (Z.of_nat (length data) - Z.of_nat (length data / 2))
      with (Z.of_nat (length data - length data / 2)) by lia.
    rewrite slice_to_all
      by (rewrite length_rev, map2_length, left_p_length, flipped_p_length;
          lia).
    rewrite map2_rev by now rewrite left_p_length, flipped_p_length.
    unfold Np.negative32. rewrite map_map2.
    rewrite flipped_p_eq. rewrite <- map_rev, rev_involutive, map2_map_r.
    reflexivity.
Qed.

Lemma symmetric_decode (L : Collab) (data : list float) :
  Z.of_nat (length (Spec.header_bytes L data)) < 2 ^ 32 ->
  json_loads L (Spec.header_bytes L data)
  = Ok (MiniRP2.header (length data / 2) (length data)
                       (length (Spec.left_comp L data))) ->
  z_decompress L (Spec.left_comp L data) = Ok (Spec.left_b data) ->
  z_decompress L (Spec.delta_comp L data) = Ok (Spec.delta_b data) ->
  MiniRP2.decompress L (Spec.block L data)
  = Ok (Np.astype_f32 (firstn (length data / 2) data)
        ++ Np.map2 Spec.recon (rev (MiniRP2.left_p data))
                   (skipn (length data / 2) data)).
Proof.
  intros Hlen Hjson Hl Hd. unfold MiniRP2.decompress, Spec.block.
  rewrite (split_layout L _ _ _ _ Hlen Hjson) by reflexivity.
  cbn [bind]. now apply decode_streams_symmetric.
Qed.

Lemma mirror_pairs (a : list float) :
  Forall (fun x => F64.is_finite x = true) a ->
  Forall2 (fun l r => Spec.recon l r = F32.of_f64 r) a (Np.negative a).
Proof.
  induction 1 as [|x a Hx _ IH]; cbn [Np.negative map]; constructor.
  - now apply recon_mirror.
  - exact IH.
Qed.

Lemma antisym_shape (a : list float) :
  let data := a ++ Np.negative (rev a) in
  (length data / 2)%nat = length a /\
  MiniRP2.left_p data = a /\
  skipn (length data / 2) data = Np.negative (rev a).
Proof.
  cbv zeta.
  assert (Hlen : length (a ++ Np.negative (rev a)) = (2 * length a)%nat).
  { unfold Np.negative. rewrite length_app, length_map, length_rev. lia. }
  assert (Hmid : (length (a ++ Np.negative (rev a)) / 2)%nat = length a).
  { rewrite Hlen, Nat.mul_comm. apply Nat.div_mul. discriminate. }
  split; [exact Hmid|]. split.
  - rewrite left_p_eq, Hmid, Hlen.
    replace (2 * length a - length a - length a)%nat with 0%nat by lia.
    rewrite firstn_app, firstn_all, Nat.sub_diag, firstn_O.
    cbn [repeat]. now rewrite !app_nil_r.
  - rewrite Hmid, skipn_app, skipn_all, Nat.sub_diag. reflexivity.
Qed.

(** C1 (amended): on the symmetry path, with a backend that restores the two
    streams and a json module that restores the header, [compress] emits
    the framed block and [decompress] returns [n] float32 values: the left
    half is the float32 cast of [seq[0..mid)], the zero padding is cut off
    by the two truncations, and the right half holds, for each [r] with
    mirror [l], the value [-(f32(l) - f32(l - (-r)))] computed in float32.
    The whole equals the float32 cast of [seq] when each of these values
    is the float32 cast of [r], and so it does for every
    [seq = concat(a, -reverse(a))] with [a] free of infinities and NaN. *)
Theorem C1_symmetric_roundtrip (L : Collab) (data : list float) (g : float) :
  let mid := (length data / 2)%nat in
  MiniRP2._estimate_gain L data = Ok g ->
  F64.ltb g F64.zero = false ->
  Z.of_nat (length (Spec.header_bytes L data)) < 2 ^ 32 ->
  json_loads L (Spec.header_bytes L data)
  = Ok (MiniRP2.header mid (length data) (length (Spec.left_comp L data))) ->
  z_decompress L (Spec.left_comp L data) = Ok (Spec.left_b data) ->
  z_decompress L (Spec.delta_comp L data) = Ok (Spec.delta_b data) ->
  MiniRP2.compress L data = Ok (Spec.block L data, Some mid) /\
  MiniRP2.decompress L (Spec.block L data)
  = Ok (Np.astype_f32 (firstn mid data)
        ++ Np.map2 Spec.recon (rev (MiniRP2.left_p data)) (skipn mid data)) /\
  length (Np.astype_f32 (firstn mid data)
          ++ Np.map2 Spec.recon (rev (MiniRP2.left_p data)) (skipn mid data))
  = length data /\
  (Forall2 (fun l r => Spec.recon l r = F32.of_f64 r)
           (rev (MiniRP2.left_p data)) (skipn mid data) ->
   MiniRP2.decompress L (Spec.block L data) = Ok (Np.astype_f32 data)) /\
  (forall a,
      Forall (fun x => F64.is_finite x = true) a ->
      data = a ++ Np.negative (rev a) ->
      MiniRP2.decompress L (Spec.block L data) = Ok (Np.astype_f32 data)).
Proof.
  cbv zeta. intros Hg Hlt Hlen Hjson Hl Hd.
  pose proof (symmetric_decode L data Hlen Hjson Hl Hd) as Hdec.
  assert (Hexact :
            Forall2 (fun l r => Spec.recon l r = F32.of_f64 r)
                    (rev (MiniRP2.left_p data))
                    (skipn (length data / 2) data) ->
            MiniRP2.decompress L (Spec.block L data)
            = Ok (Np.astype_f32 data)).
  { intros Hexact. rewrite Hdec, (map2_recon _ _ Hexact).
    unfold Np.astype_f32. now rewrite <- map_app, firstn_skipn. }
  split; [now apply compress_symmetric with (g := g)|].
  split; [exact Hdec|]. split; [|split; [exact Hexact|]].
  - unfold Np.astype_f32.
    rewrite length_app, length_map, map2_length, length_firstn, length_rev,
      left_p_length, length_skipn.
    pose proof (half_le_rest (length data)). lia.
  - intros a Ha Hdata. apply Hexact.
    destruct (antisym_shape a) as (_ & Hleft & Hright).
    rewrite Hdata, Hleft, Hright.
    apply mirror_pairs. now apply Forall_rev.
Qed.

Lemma C1_witness :
  MiniRP2.compress Ref.L Examples.antisym
  = Ok (Spec.block Ref.L Examples.antisym, Some 256%nat) /\
  MiniRP2.decompress Ref.L (Spec.block Ref.L Examples.antisym)
  = Ok (Np.astype_f32 Examples.antisym).
Proof.
  assert (Hg : MiniRP2._estimate_gain Ref.L Examples.antisym
               = Ok (Spec.gain 512 F64.zero)) by (vm_compute; reflexivity).
  assert (Hlt : F64.ltb (Spec.gain 512 F64.zero) F64.zero = false)
    by (vm_compute; reflexivity).
  assert (Hlen : Z.of_nat (length (Spec.header_bytes Ref.L Examples.antisym))
                 < 2 ^ 32) by (vm_compute; reflexivity).
  assert (Hjson : json_loads Ref.L (Spec.header_bytes Ref.L Examples.antisym)
                  = Ok (MiniRP2.header (length Examples.antisym / 2)
                          (length Examples.antisym)
                          (length (Spec.left_comp Ref.L Examples.antisym))))
    by (vm_compute; reflexivity).
  destruct (C1_symmetric_roundtrip Ref.L Examples.antisym _ Hg Hlt Hlen Hjson
              eq_refl eq_refl) as (H1 & _ & _ & H4 & _).
  split; [exact H1|]. apply H4.
  apply recon_check. vm_compute. reflexivity.
Defined.

(** C1, as stated, fails: [Examples.lossy] takes the symmetry path (its
    delta is constant, of variance 0), the backend and the framing lose
    nothing, and the last value comes back as -0.0 where the float32 cast
    of the input holds -0.5: the float32 of [delta = 2^24 - 0.5] is 2^24,
    and [2^24 - 2^24 = 0]. *)
Lemma C1_counterexample :
  (exists g, MiniRP2._estimate_gain Ref.L Examples.lossy = Ok g /\
             F64.ltb g F64.zero = false) /\
  exists blk out,
    MiniRP2.compress Ref.L Examples.lossy = Ok (blk, Some 256%nat) /\
    MiniRP2.decompress Ref.L blk = Ok out /\
    nth 511 out 0 = F32.to_bits (S754_zero true) /\
    nth 511 (Np.astype_f32 Examples.lossy) 0 = F32.of_f64 (F64.neg F64.half) /\
    out <> Np.astype_f32 Examples.lossy.
Proof.
  split.
  - eexists. split; vm_compute; reflexivity.
  - exists (Spec.block Ref.L Examples.lossy).
    eexists. split; [vm_compute; reflexivity|].
    split; [vm_compute; reflexivity|].
    split; [vm_compute; reflexivity|].
    split; [vm_compute; reflexivity|].
    intros H. apply (f_equal (fun l => nth 511 l 0)) in H.
    vm_compute in H. discriminate H.
Qed.




(** ** The family selector *)

Section Selector.

Variable L : Collab.
Variable data : list float.
Variable levels : Z.
Variable thresh_factor : float.

Local Notation "'attempt'" := (try_family L data levels thresh_factor).
Local Notation "'chosen'" := (Spec.selected attempt).

Lemma try_family_name (family : string) (c : candidate) :
  attempt family = Ok c ->
  c_family c = family /\ c_size c = length (c_bytes c).
Proof.
  unfold try_family.
  destruct (wavedec L data family levels) as [[|approx details]|e];
    cbn [bind]; try discriminate.
  destruct (MiniRP2.compress L approx) as [[approx_comp seam]|e];
    cbn [bind]; try discriminate.
  intros H. injection H as <-. split; reflexivity.
Qed.

Lemma step_failed (st : best) (family : string) (e : pyerr) :
  attempt family = Err e ->
  step L data levels thresh_factor st family = st.
Proof. unfold step. now intros ->. Qed.

Lemma step_ok (st : best) (family : string) (c : candidate) :
  attempt family = Ok c ->
  step L data levels thresh_factor st family
  = if size_lt (c_size c) (best_size st) then Spec.winner c else st.
Proof. unfold step. now intros ->. Qed.

Lemma selected_step (st : best) (done : list string) (family : string) :
  chosen st done ->
  chosen (step L data levels thresh_factor st family) (done ++ [family]).
Proof.
  intros Hsel. destruct (attempt family) as [c1|e] eqn:Htry.
  - rewrite (step_ok _ _ _ Htry).
    destruct Hsel as [[-> Hfail]|(fam & c & -> & pre & post & -> & Hc & Hpre & Hpost)].
    + right. exists family, c1. split; [reflexivity|].
      exists done, []. repeat split; try assumption.
      * intros f c' Hin Hok. destruct (Hfail f Hin) as [e He]. congruence.
      * intros f c' [].
    + cbn [size_lt Spec.winner best_size].
      destruct (c_size c1 <? c_size c)%nat eqn:Hlt.
      * apply Nat.ltb_lt in Hlt. right. exists family, c1.
        split; [reflexivity|].
        exists (pre ++ fam :: post), []. repeat split; try assumption.
        -- intros f c' Hin Hok. apply in_app_or in Hin.
           destruct Hin as [Hin|[<-|Hin]].
           ++ specialize (Hpre f c' Hin Hok). lia.
           ++ assert (c' = c) by congruence. subst c'. lia.
           ++ specialize (Hpost f c' Hin Hok). lia.
        -- intros f c' [].
      * apply Nat.ltb_ge in Hlt. right. exists fam, c.
        split; [reflexivity|].
        exists pre, (post ++ [family]). repeat split; try assumption.
        -- now rewrite <- app_assoc.
        -- intros f c' Hin Hok. apply in_app_or in Hin.
           destruct Hin as [Hin|[<-|[]]].
           ++ now apply (Hpost f c').
           ++ assert (c' = c1) by congruence. subst c'. lia.
  - rewrite (step_failed _ _ _ Htry).
    destruct Hsel as [[-> Hfail]|(fam & c & -> & pre & post & -> & Hc & Hpre & Hpost)].
    + left. split; [reflexivity|].
      intros f Hin. apply in_app_or in Hin.
      destruct Hin as [Hin|[<-|[]]]; [now apply Hfail|now exists e].
    + right. exists fam, c. split; [reflexivity|].
      exists pre, (post ++ [family]). repeat split; try assumption.
      * now rewrite <- app_assoc.
      * intros f c' Hin Hok. apply in_app_or in Hin.
        destruct Hin as [Hin|[<-|[]]]; [now apply (Hpost f c')|congruence].
Qed.

Lemma selected_fold (families done : list string) (st : best) :
  chosen st done ->
  chosen (fold_left (step L data levels thresh_factor) families st)
           (done ++ families).
Proof.
  revert done st. induction families as [|f families IH]; intros done st H.
  - now rewrite app_nil_r.
  - cbn [fold_left].
    replace (done ++ f :: families) with ((done ++ [f]) ++ families)
      by now rewrite <- app_assoc.
    apply IH. now apply selected_step.
Qed.

Lemma select_selected (families : list string) :
  chosen (select L data families levels thresh_factor) families.
Proof.
  unfold select.
  apply (selected_fold families [] best_init).
  left. split; [reflexivity|]. intros f [].
Qed.

End Selector.

(** C7: the artifact returned is that of the candidate whose packed and
    outer-compressed bytes are the shortest among the candidates that did
    not fail, and among candidates of that size the one listed first. *)
Theorem C7_select_smallest_first (L : Collab) (data : list float)
    (families : list string) (levels : Z) (thresh_factor : float)
    (packed_bytes : bytes) (coeffs : option (list (list float)))
    (fam : option string) :
  hybrid_compress L data families levels thresh_factor
  = Ok (packed_bytes, coeffs, fam) ->
  exists family c,
    Spec.first_smallest (try_family L data levels thresh_factor)
                        families family c /\
    packed_bytes = c_bytes c /\ c_size c = length packed_bytes /\
    coeffs = Some (c_coeffs c) /\ fam = Some family.
Proof.
  unfold hybrid_compress. intros H.
  destruct (select_selected L data levels thresh_factor families)
    as [[Hst _]|(family & c & Hst & Hfirst)]; rewrite Hst in H.
  - discriminate H.
  - cbn in H. injection H as <- <- <-.
    exists family, c.
    destruct Hfirst as (pre & post & Hfam & Hc & Hpre & Hpost).
    destruct (try_family_name L data levels thresh_factor family c Hc)
      as [Hname Hsize].
    repeat split; try assumption; try congruence.
    exists pre, post. repeat split; assumption.
Qed.

Lemma C7_witness :
  exists c,
    hybrid_compress Ref.L Examples.short ["sym8"; "db6"; "db4"]%string 5
                    F64.two
    = Ok (c_bytes c, Some (c_coeffs c), Some "db6"%string) /\
    Spec.first_smallest (try_family Ref.L Examples.short 5 F64.two)
                        ["sym8"; "db6"; "db4"]%string "db6"%string c.
Proof.
  destruct (hybrid_compress Ref.L Examples.short ["sym8"; "db6"; "db4"]%string
                            5 F64.two)
    as [[[b co] fa]|e] eqn:E; [|vm_compute in E; discriminate E].
  destruct (C7_select_smallest_first Ref.L Examples.short
              ["sym8"; "db6"; "db4"]%string 5 F64.two b co fa E)
    as (family & c & Hfirst & Hb & _ & Hco & Hfa).
  assert (Hfam : fa = Some "db6"%string).
  { vm_compute in E. now injection E as _ _ <-. }
  rewrite Hfa in Hfam. injection Hfam as ->.
  exists c. subst b co fa. split; [reflexivity|exact Hfirst].
Defined.

(** C8: a candidate whose transform fails leaves the loop variables as
    they were and the loop goes on; the selection returns an artifact as
    soon as one candidate does not fail, that artifact is the artifact of
    a candidate that did not fail, and the selection raises
    ([RuntimeError], "No wavelet family succeeded") exactly when every
    candidate failed. *)
Theorem C8_partial_failure (L : Collab) (data : list float)
    (families : list string) (levels : Z) (thresh_factor : float) :
  let try := try_family L data levels thresh_factor in
  (forall family e st,
      wavedec L data family levels = Err e ->
      try family = Err e /\
      step L data levels thresh_factor st family = st) /\
  ((exists f, In f families /\ is_ok (try f) = true) ->
   exists packed_bytes coeffs fam f c,
     hybrid_compress L data families levels thresh_factor
     = Ok (packed_bytes, coeffs, fam) /\
     In f families /\ try f = Ok c /\ packed_bytes = c_bytes c) /\
  ((forall f, In f families -> is_ok (try f) = false) ->
   hybrid_compress L data families levels thresh_factor = Err RuntimeError).
Proof.
  cbv zeta. split; [|split].
  - intros family e st Hw.
    assert (Htry : try_family L data levels thresh_factor family = Err e)
      by (unfold try_family; now rewrite Hw).
    split; [exact Htry|]. now apply step_failed with (e := e).
  - intros (f & Hin & Hok). unfold hybrid_compress.
    destruct (select_selected L data levels thresh_factor families)
      as [[Hst Hfail]|(family & c & Hst & pre & post & Hfam & Hc & _)].
    + destruct (Hfail f Hin) as [e He]. rewrite He in Hok. discriminate Hok.
    + rewrite Hst. cbn.
      exists (c_bytes c), (Some (c_coeffs c)), (Some (c_family c)), family, c.
      repeat split; try assumption.
      rewrite Hfam. apply in_or_app. right. now left.
  - intros Hall. unfold hybrid_compress.
    destruct (select_selected L data levels thresh_factor families)
      as [[Hst _]|(family & c & Hst & pre & post & Hfam & Hc & _)].
    + now rewrite Hst.
    + assert (Hin : In family families)
        by (rewrite Hfam; apply in_or_app; right; now left).
      specialize (Hall family Hin). rewrite Hc in Hall. discriminate Hall.
Qed.

Lemma C8_witness :
  (exists packed_bytes coeffs fam,
      hybrid_compress Ref.L Examples.short ["haar9"; "db4"]%string 5 F64.two
      = Ok (packed_bytes, coeffs, fam)) /\
  hybrid_compress Ref.L Examples.short ["haar9"; "nope"]%string 5 F64.two
  = Err RuntimeError.
Proof.
  split.
  - destruct (C8_partial_failure Ref.L Examples.short ["haar9"; "db4"]%string
                5 F64.two) as (_ & Hsome & _).
    destruct Hsome as (b & co & fa & f & c & H & _).
    + exists "db4"%string. split; [right; now left|].
      vm_compute. reflexivity.
    + now exists b, co, fa.
  - apply (C8_partial_failure Ref.L Examples.short ["haar9"; "nope"]%string
             5 F64.two).
    intros f [<-|[<-|[]]]; vm_compute; reflexivity.
Defined.

(** ** Failures of [decompress] *)




(** ** The packed artifact *)

Lemma repr_byte_length (quote b : byte) :
  (1 <= length (repr_byte quote b))%nat.
Proof.
  unfold repr_byte.
  repeat match goal with
         | |- context [if ?c then _ else _] => destruct c
         end; cbn; lia.
Qed.

Lemma repr_bytes_length (quote : byte) (bs : bytes) :
  (length bs <= length (flat_map (repr_byte quote) bs))%nat.
Proof.
  induction bs as [|b bs IH]; cbn [flat_map length]; [lia|].
  rewrite length_app. pose proof (repr_byte_length quote b). lia.
Qed.

Lemma bytes_repr_longer (bs : bytes) :
  (length bs + 3 <= length (encode_latin1 (bytes_repr bs)))%nat.
Proof.
  unfold encode_latin1, bytes_repr.
  rewrite list_byte_of_string_of_list_byte.
  cbn [length]. rewrite length_app. cbn [length].
  match goal with |- context [flat_map (repr_byte ?q) bs] =>
    pose proof (repr_bytes_length q bs) end.
  lia.
Qed.

(** C5 fails on the code: the serialised dict is restored by the outer
    decompression and the json parse, but its bytes fields were written
    through [str]: [approx] comes back as the str of the repr of the
    payload, which no decoder accepts, and each detail buffer as the repr
    text, at least three bytes longer than the buffer; [seam], [orig_len],
    [wavelet] and [levels] come back as they were, and
    [hybrid_decompress] raises TypeError. *)
Theorem C5_bytes_come_back_as_text (L : Collab) (a : artifact) :
  z_decompress L (serialize L a) = Ok (json_dumps L (packed_json a)) ->
  json_loads L (json_dumps L (packed_json a)) = Ok (packed_json a) ->
  exists packed,
    deserialize L (serialize L a) = Ok packed /\
    getitem packed "approx" = Ok (JStr (bytes_repr (a_approx a))) /\
    as_bytes (JStr (bytes_repr (a_approx a))) = Err TypeError /\
    getitem packed "details"
    = Ok (JList (map (fun d => JStr (bytes_repr d)) (a_details a))) /\
    (forall d,
        detail_bytes (JStr (bytes_repr d)) = Ok (encode_latin1 (bytes_repr d)) /\
        (length d + 3 <= length (encode_latin1 (bytes_repr d)))%nat /\
        encode_latin1 (bytes_repr d) <> d) /\
    getitem packed "seam" = Ok (json_of_seam (a_seam a)) /\
    getitem packed "orig_len" = Ok (JInt (Z.of_nat (a_orig_len a))) /\
    getitem packed "wavelet" = Ok (JStr (a_wavelet a)) /\
    getitem packed "levels" = Ok (JInt (a_levels a)) /\
    hybrid_decompress L (serialize L a) = Err TypeError.
Proof.
  intros Hz Hj.
  assert (Hd : deserialize L (serialize L a) = Ok (packed_json a))
    by (unfold deserialize; rewrite Hz; exact Hj).
  exists (packed_json a).
  repeat match goal with |- _ /\ _ => split end; try reflexivity.
  - exact Hd.
  - intros d. split; [reflexivity|]. split.
    + apply bytes_repr_longer.
    + intros H. pose proof (bytes_repr_longer d) as Hlen.
      rewrite H in Hlen. lia.
  - unfold hybrid_decompress. rewrite Hd. cbn [bind].
    change (getitem (packed_json a) "approx")
      with (Ok (JStr (bytes_repr (a_approx a)))).
    change (getitem (packed_json a) "seam") with (Ok (json_of_seam (a_seam a))).
    cbn [bind]. destruct (a_seam a); reflexivity.
Qed.

Lemma C5_witness :
  deserialize Ref.L (serialize Ref.L Examples.art)
  = Ok (packed_json Examples.art) /\
  getitem (packed_json Examples.art) "approx"
  = Ok (JStr "b'\x1f\x8b\x00\x00\x80?'") /\
  hybrid_decompress Ref.L (serialize Ref.L Examples.art) = Err TypeError.
Proof.
  destruct (C5_bytes_come_back_as_text Ref.L Examples.art)
    as (packed & H1 & H2 & _ & _ & _ & _ & _ & _ & _ & H3);
    try (vm_compute; reflexivity).
  assert (packed = packed_json Examples.art) as ->.
  { assert (H : deserialize Ref.L (serialize Ref.L Examples.art)
                = Ok (packed_json Examples.art)) by (vm_compute; reflexivity).
    rewrite H in H1. now injection H1. }
  split; [exact H1|]. split; [exact H2|exact H3].
Defined.

(** ** Thresholding *)

Lemma bounded_inv (m : positive) (e : Z) :
  bounded F64.prec F64.emax m e = true ->
  fexp F64.prec F64.emax (Zpos (digits2_pos m) + e) = e /\ e <= 971.
Proof.
  unfold bounded, canonical_mantissa. intros H.
  apply andb_prop in H. destruct H as [H1 H2].
  apply Z.eqb_eq in H1. apply Z.leb_le in H2.
  split; [exact H1|]. unfold F64.prec, F64.emax in H2. lia.
Qed.

(** The product of 1.0 or -1.0 with a well-formed value is that value
    with the sign changed by the unit: the 52 low zero bits of the product
    of the mantissas are shifted out again and nothing is rounded. *)
Lemma mul_unit_exact (s sy : bool) (m : positive) (e : Z) :
  bounded F64.prec F64.emax m e = true ->
  F64.mul (if s then F64.minus_one else F64.one) (S754_finite sy m e)
  = S754_finite (xorb s sy) m e.
Proof.
  intros Hb. destruct (bounded_inv m e Hb) as [Hc He].
  assert (Hmul : F64.mul (if s then F64.minus_one else F64.one)
                         (S754_finite sy m e)
                 = binary_round_aux F64.prec F64.emax (xorb s sy)
                     (Zpos (Pos.mul 4503599627370496 m)) (-52 + e) loc_Exact)
    by (destruct s; reflexivity).
  rewrite Hmul. clear Hmul.
  unfold binary_round_aux, shr_fexp.
  cbn [Pos.mul Zdigits2 digits2_pos shr_record_of_loc].
  match goal with
  | |- context [fexp F64.prec F64.emax (Z.pos ?d + (-52 + e)) - (-52 + e)] =>
      replace (fexp F64.prec F64.emax (Z.pos d + (-52 + e)) - (-52 + e))
        with 52
        by (replace (Z.pos d + (-52 + e)) with (Z.pos (digits2_pos m) + e)
              by lia; rewrite Hc; lia)
  end.
  cbn [shr iter_pos shr_1 orb shr_m loc_of_shr_record round_nearest_even
       Zdigits2].
  replace (-52 + e + 52) with e by lia.
  rewrite Hc, Z.sub_diag. cbn [shr shr_m].
  replace (e <=? F64.emax - F64.prec) with true; [reflexivity|].
  symmetry. apply Z.leb_le. unfold F64.emax, F64.prec. lia.
Qed.

Lemma mul_one_r (s : bool) (m : positive) (e : Z) :
  bounded F64.prec F64.emax m e = true ->
  F64.mul (S754_finite s m e) F64.one = S754_finite s m e.
Proof.
  intros Hb.
  pose proof (mul_unit_exact false s m e Hb) as H. cbn [xorb] in H.
  rewrite <- H at 2.
  unfold F64.mul, F64.one, SFmul.
  rewrite Pos.mul_comm, Z.add_comm, xorb_false_r. reflexivity.
Qed.

(** With a zero threshold the factor of the shrink is [1 - 0 / |x| = 1]
    for every value that is not a zero, and [nan] for a zero. *)
Lemma soft_zero_threshold (t x : float) :
  F64.is_zero t = true ->
  F64.valid x = true ->
  soft t x = if F64.is_zero x then S754_nan else x.
Proof.
  intros Ht Hx. destruct t as [st|st| |st mt et]; try discriminate Ht.
  destruct x as [s|s| |s m e]; cbn [F64.is_zero].
  - destruct s, st; reflexivity.
  - destruct s, st; reflexivity.
  - reflexivity.
  - cbn in Hx.
    assert (H : soft (S754_zero st) (S754_finite s m e)
                = F64.mul (S754_finite s m e) F64.one)
      by (destruct st; reflexivity).
    rewrite H. now apply mul_one_r.
Qed.

Lemma maximum_valid (a b : float) :
  F64.valid a = true -> F64.valid b = true ->
  F64.valid (Np.maximum a b) = true.
Proof.
  intros Ha Hb. unfold Np.maximum.
  destruct (F64.is_nan a || F64.is_nan b); [reflexivity|].
  now destruct (F64.ltb a b).
Qed.

Lemma abs_valid (x : float) : F64.valid x = true -> F64.valid (F64.abs x) = true.
Proof. now destruct x. Qed.

Lemma digits2_mul (a b : positive) :
  Zpos (digits2_pos a) + Zpos (digits2_pos b) - 1
  <= Zpos (digits2_pos (a * b)).
Proof.
  pose proof (digits2_bounds a) as [La _].
  pose proof (digits2_bounds b) as [Lb _].
  pose proof (digits2_bounds (a * b)) as [_ U].
  rewrite Pos2Z.inj_mul in U.
  set (da := Zpos (digits2_pos a)) in *.
  set (db := Zpos (digits2_pos b)) in *.
  set (D := Zpos (digits2_pos (a * b))) in *.
  assert (Hda : 1 <= da) by (unfold da; lia).
  assert (Hdb : 1 <= db) by (unfold db; lia).
  assert (Hp : 2 ^ (da - 1 + (db - 1)) <= Zpos a * Zpos b).
  { rewrite Z.pow_add_r by lia.
    assert (0 < 2 ^ (da - 1)) by (apply Z.pow_pos_nonneg; lia).
    assert (0 < 2 ^ (db - 1)) by (apply Z.pow_pos_nonneg; lia).
    nia. }
  destruct (Z.le_gt_cases (da + db - 1) D) as [H|H]; [exact H|].
  assert (2 ^ D <= 2 ^ (da - 1 + (db - 1)))
    by (apply Z.pow_le_mono_r; lia).
  lia.
Qed.

(** A product of two well-formed values is well formed: the product of
    the mantissas has enough digits for its exponent. *)
Lemma mul_valid (x y : float) :
  F64.valid x = true -> F64.valid y = true ->
  F64.valid (F64.mul x y) = true.
Proof.
  intros Hx Hy.
  destruct x as [sx|sx| |sx mx ex]; destruct y as [sy|sy| |sy my ey];
    try reflexivity.
  cbn in Hx, Hy.
  destruct (bounded_inv mx ex Hx) as [Hcx _].
  destruct (bounded_inv my ey Hy) as [Hcy _].
  unfold F64.valid, F64.mul, SFmul.
  apply round_aux_valid; [reflexivity|lia| |lia].
  intros _. cbn [Zdigits2].
  pose proof (digits2_mul mx my) as Hd.
  pose proof (Pos2Z.is_pos (digits2_pos mx)).
  pose proof (Pos2Z.is_pos (digits2_pos my)).
  rewrite fexp_max in *. unfold F64.prec, emin, F64.emax in *. lia.
Qed.

Lemma soft_valid (t x : float) :
  F64.valid x = true -> F64.valid (soft t x) = true.
Proof.
  intros Hx. unfold soft. apply mul_valid; [exact Hx|].
  apply maximum_valid; [|reflexivity].
  apply SFsub_valid; [reflexivity|reflexivity|].
  apply SFdiv_valid. reflexivity.
Qed.

Lemma threshold_valid (factor : float) (d : list float) :
  Forall (fun x => F64.valid x = true) d ->
  Forall (fun x => F64.valid x = true) (threshold factor d).
Proof.
  intros H. unfold threshold. apply Forall_map.
  eapply Forall_impl; [|exact H].
  intros x Hx. now apply soft_valid.
Qed.

Lemma threshold_zero (factor : float) (d : list float) :
  Forall (fun x => F64.valid x = true) d ->
  F64.is_zero
    (F64.div (F64.mul factor (Np.median (Np.absolute d))) F64.c0_6745)
  = true ->
  threshold factor d
  = map (fun x => if F64.is_zero x then S754_nan else x) d.
Proof.
  intros Hd Hzero. unfold threshold.
  set (t := F64.div _ F64.c0_6745) in *. clearbody t.
  induction Hd as [|x l Hx _ IH]; [reflexivity|].
  cbn [map]. now rewrite IH, soft_zero_threshold.
Qed.

(** C6 (amended): a second pass with the same factor recomputes the
    threshold from the values already shrunk,
    [factor * median(|threshold(d, factor)|) / 0.6745].  When that
    threshold is zero, the second pass returns every value of the first
    pass that is not a zero unchanged, for every array [d] of well-formed
    binary64 values. *)
Theorem C6_second_pass_zero_threshold (factor : float) (d : list float) :
  let once := threshold factor d in
  Forall (fun x => F64.valid x = true) d ->
  F64.is_zero
    (F64.div (F64.mul factor (Np.median (Np.absolute once))) F64.c0_6745)
  = true ->
  Forall2 (fun twice_i once_i => F64.is_zero once_i = false ->
                                 twice_i = once_i)
          (threshold factor once) once.
Proof.
  cbv zeta. intros Hd Hzero.
  pose proof (threshold_valid factor d Hd) as Hvalid.
  rewrite (threshold_zero factor (threshold factor d) Hvalid Hzero).
  clear Hzero Hvalid.
  induction (threshold factor d) as [|y l IH]; cbn [map]; constructor.
  - intros Hy. now rewrite Hy.
  - exact IH.
Qed.

Lemma C6_witness :
  Forall2 (fun twice_i once_i => F64.is_zero once_i = false ->
                                 twice_i = once_i)
    (threshold F64.two (threshold F64.two Examples.detail3))
    (threshold F64.two Examples.detail3).
Proof.
  apply (C6_second_pass_zero_threshold F64.two Examples.detail3).
  - vm_compute. repeat constructor.
  - vm_compute. reflexivity.
Defined.

(** C6, as stated, fails: with factor 0.5 the array [1, 10, 100] becomes
    about [0, 2.59, 92.59], whose median is not zero, and a second pass
    shrinks the two surviving values again, to about [0, 0.67, 90.67]. *)
Lemma C6_counterexample :
  threshold F64.half (threshold F64.half Examples.detail3)
  <> threshold F64.half Examples.detail3 /\
  F64.ltb (nth 1 (threshold F64.half (threshold F64.half Examples.detail3))
               S754_nan)
          (nth 1 (threshold F64.half Examples.detail3) S754_nan) = true /\
  F64.ltb F64.zero
          (nth 1 (threshold F64.half (threshold F64.half Examples.detail3))
               S754_nan) = true.
Proof.
  split; [|split; vm_compute; reflexivity].
  intros H. apply (f_equal (fun l => nth 1 l S754_nan)) in H.
  vm_compute in H. discriminate H.
Qed.

(** * Further properties of the code *)

(** ** The outcomes of [MiniRP2.compress] *)

Lemma compress_outcomes (L : Collab) (data : list float) :
  match MiniRP2.compress L data with
  | Ok (blk, None) =>
      (exists g, MiniRP2._estimate_gain L data = Ok g /\
                 F64.ltb g F64.zero = true) /\
      blk = z_compress L (Np.tobytes (Np.astype_f32 data))
  | Ok (blk, Some mid) =>
      (512 <= length data)%nat /\ mid = (length data / 2)%nat /\
      (256 <= mid)%nat /\ blk = Spec.block L data /\
      (exists g, MiniRP2._estimate_gain L data = Ok g /\
                 F64.ltb g F64.zero = false)
  | Err e =>
      e = OverflowError /\ (512 <= length data)%nat /\
      2 ^ 32 <= Z.of_nat (length (Spec.header_bytes L data))
  end.
Proof.
  assert (Hlong : forall g, MiniRP2._estimate_gain L data = Ok g ->
                            F64.ltb g F64.zero = false ->
                            (512 <= length data)%nat).
  { intros g Hg Hlt. rewrite estimate_gain_eq in Hg.
    destruct (length data <? 512)%nat eqn:E.
    - cbn [orb] in Hg. injection Hg as <-. discriminate Hlt.
    - apply Nat.ltb_ge in E. exact E. }
  unfold MiniRP2.compress.
  destruct (MiniRP2._estimate_gain L data) as [g|e] eqn:Hg;
    [|rewrite estimate_gain_eq in Hg; discriminate Hg].
  cbn [bind]. destruct (F64.ltb g F64.zero) eqn:Hlt.
  - split; [|reflexivity]. now exists g.
  - specialize (Hlong g eq_refl Hlt).
    rewrite compress_delta. cbn [bind].
    fold (Spec.delta_b data) (Spec.left_b data).
    fold (Spec.left_comp L data) (Spec.delta_comp L data).
    fold (Spec.header_bytes L data).
    unfold to_bytes_le.
    replace (256 ^ Z.of_nat 4) with (2 ^ 32) by reflexivity.
    destruct (Z.of_nat (length (Spec.header_bytes L data)) <? 2 ^ 32) eqn:E.
    + replace (0 <=? Z.of_nat (length (Spec.header_bytes L data))) with true
        by (symmetry; apply Z.leb_le; lia).
      cbn [andb bind]. repeat split; try assumption.
      * apply Nat.div_le_lower_bound; lia.
      * now exists g.
    + rewrite andb_false_r. cbn [bind]. apply Z.ltb_ge in E.
      repeat split; assumption.
Qed.

(** X1: [compress] returns a direct block, the backend-compressed float32
    bytes without a seam, exactly when the estimated gain is below zero;
    a seam is only given to a sequence of at least 512 values and is
    [n // 2]; and the only exception [compress] can raise is the
    OverflowError of a header longer than four bytes can count. *)
Theorem X1_compress_outcomes (L : Collab) (data : list float) :
  match MiniRP2.compress L data with
  | Ok (blk, None) =>
      (exists g, MiniRP2._estimate_gain L data = Ok g /\
                 F64.ltb g F64.zero = true) /\
      blk = z_compress L (Np.tobytes (Np.astype_f32 data))
  | Ok (blk, Some mid) =>
      (512 <= length data)%nat /\ mid = (length data / 2)%nat /\
      (256 <= mid)%nat /\ blk = Spec.block L data /\
      (exists g, MiniRP2._estimate_gain L data = Ok g /\
                 F64.ltb g F64.zero = false)
  | Err e =>
      e = OverflowError /\ (512 <= length data)%nat /\
      2 ^ 32 <= Z.of_nat (length (Spec.header_bytes L data))
  end.
Proof. apply compress_outcomes. Qed.

(** X2: a NaN variance slips through both tests.  For a sequence of at
    least 512 values whose variance, or whose delta's variance, is NaN,
    [delta_var >= data_var] is false, the gain is NaN, [gain < 0] is false
    too, and [compress] takes the symmetric branch. *)
Theorem X2_nan_variance_is_symmetric (L : Collab) (data : list float) :
  (512 <= length data)%nat ->
  F64.is_nan (np_var L (Spec.delta data)) || F64.is_nan (np_var L data)
  = true ->
  Z.of_nat (length (Spec.header_bytes L data)) < 2 ^ 32 ->
  MiniRP2._estimate_gain L data = Ok S754_nan /\
  MiniRP2.compress L data
  = Ok (Spec.block L data, Some (length data / 2)%nat).
Proof.
  intros Hn Hnan Hlen.
  assert (Hg : MiniRP2._estimate_gain L data = Ok S754_nan).
  { rewrite estimate_gain_eq.
    replace (length data <? 512)%nat with false
      by (symmetry; apply Nat.ltb_ge; exact Hn).
    cbn [orb]. unfold Spec.gain, Spec.ratio.
    destruct (np_var L (Spec.delta data)) as [s|s| |s m e] eqn:Ed;
      destruct (np_var L data) as [s'|s'| |s' m' e'] eqn:Ev;
      try discriminate Hnan; cbn [F64.geb SFleb SFcompare];
      try (destruct (F64.of_Z _); reflexivity);
      try (destruct s; destruct (F64.of_Z _); reflexivity). }
  split; [exact Hg|].
  now apply compress_symmetric with (g := S754_nan).
Qed.

Lemma X2_witness :
  MiniRP2._estimate_gain Ref.L Inputs.with_nan = Ok S754_nan /\
  MiniRP2.compress Ref.L Inputs.with_nan
  = Ok (Spec.block Ref.L Inputs.with_nan, Some 256%nat).
Proof.
  apply (X2_nan_variance_is_symmetric Ref.L Inputs.with_nan).
  - vm_compute. apply le_n.
  - vm_compute. reflexivity.
  - vm_compute. reflexivity.
Defined.

(** ** The two deltas: what is measured and what is stored *)

Lemma tobytes_length (ws : list F32.word) :
  length (Np.tobytes ws) = (4 * length ws)%nat.
Proof.
  unfold Np.tobytes. induction ws as [|w ws IH]; [reflexivity|].
  cbn [flat_map]. rewrite length_app, length_le_digits, IH.
  cbn [length]. lia.
Qed.

Lemma half_double (n : nat) : (n - n / 2 - n / 2 <= 1)%nat.
Proof.
  pose proof (Nat.div_mod_eq n 2) as H.
  pose proof (Nat.mod_upper_bound n 2 ltac:(lia)) as H2. lia.
Qed.

Lemma even_half (n : nat) : Nat.even n = true -> (n - n / 2 = n / 2)%nat.
Proof.
  intros H. apply Nat.even_spec in H. destruct H as [m ->].
  replace (2 * m / 2)%nat with m; [lia|].
  symmetry. rewrite Nat.mul_comm. apply Nat.div_mul. lia.
Qed.

Lemma odd_half (n : nat) :
  Nat.odd n = true -> (2 * (n / 2) = n - 1)%nat /\ (1 <= n)%nat.
Proof.
  intros H. apply Nat.odd_spec in H. destruct H as [m ->].
  replace ((2 * m + 1) / 2)%nat with m; [lia|].
  apply Nat.div_unique with (r := 1%nat); lia.
Qed.

Lemma stored_delta_even (data : list float) :
  Nat.even (length data) = true ->
  Np.map2 F64.sub (MiniRP2.left_p data) (MiniRP2.flipped_p data)
  = Spec.delta data.
Proof.
  intros He. pose proof (even_half _ He) as Hh.
  rewrite left_p_eq, flipped_p_eq. unfold Spec.delta.
  replace (length data - length data / 2 - length data / 2)%nat with 0%nat
    by lia.
  cbn [repeat]. rewrite app_nil_r.
  rewrite (firstn_all2 (n := (length data / 2)%nat)
             (skipn (length data / 2) data)).
  - reflexivity.
  - rewrite length_skipn. lia.
Qed.

Lemma delta_drops_last (data : list float) :
  Spec.delta data = Spec.delta (firstn (2 * (length data / 2)) data).
Proof.
  pose proof (half_le_rest (length data)) as Hh.
  unfold Spec.delta.
  assert (Hl : length (firstn (2 * (length data / 2)) data)
               = (2 * (length data / 2))%nat).
  { rewrite length_firstn. lia. }
  rewrite Hl.
  replace (2 * (length data / 2) / 2)%nat with (length data / 2)%nat
    by (symmetry; rewrite Nat.mul_comm; apply Nat.div_mul; lia).
  set (m := (length data / 2)%nat) in *.
  rewrite firstn_firstn. replace (Nat.min m (2 * m)) with m by lia.
  rewrite skipn_firstn_comm.
  rewrite firstn_firstn.
  replace (Nat.min m (2 * m - m)) with m by lia.
  reflexivity.
Qed.

(** X3: before the backend sees them, the two streams of the symmetric
    framing hold [4 * (n - n // 2)] bytes each, so together never fewer
    than the [4 * n] bytes of the direct encoding. *)
Theorem X3_symmetric_payload_size (data : list float) :
  length (Spec.left_b data) = (4 * (length data - length data / 2))%nat /\
  length (Spec.delta_b data) = (4 * (length data - length data / 2))%nat /\
  length (Np.tobytes (Np.astype_f32 data)) = (4 * length data)%nat /\
  (length (Np.tobytes (Np.astype_f32 data))
   <= length (Spec.left_b data) + length (Spec.delta_b data))%nat.
Proof.
  assert (H1 : length (Spec.left_b data)
               = (4 * (length data - length data / 2))%nat).
  { unfold Spec.left_b. rewrite tobytes_length. unfold Np.astype_f32.
    now rewrite length_map, left_p_length. }
  assert (H2 : length (Spec.delta_b data)
               = (4 * (length data - length data / 2))%nat).
  { unfold Spec.delta_b. rewrite tobytes_length. unfold Np.astype_f32.
    rewrite length_map, map2_length, left_p_length, flipped_p_length.
    now rewrite Nat.min_id. }
  assert (H3 : length (Np.tobytes (Np.astype_f32 data))
               = (4 * length data)%nat).
  { rewrite tobytes_length. unfold Np.astype_f32. now rewrite length_map. }
  repeat split; try assumption.
  rewrite H1, H2, H3. pose proof (half_le_rest (length data)). lia.
Qed.

(** X4: for a sequence of even length the delta that [compress] stores is
    the delta whose variance [_estimate_gain] measured. *)
Theorem X4_stored_delta_is_measured_delta (data : list float) :
  Nat.even (length data) = true ->
  Np.subtract (MiniRP2.left_p data) (MiniRP2.flipped_p data)
  = Np.subtract (MiniRP2.est_left data) (MiniRP2.est_right_f data).
Proof.
  intros He. rewrite compress_delta, est_delta_spec.
  now rewrite stored_delta_even.
Qed.

Lemma X4_witness :
  Np.subtract (MiniRP2.left_p Inputs.six) (MiniRP2.flipped_p Inputs.six)
  = Np.subtract (MiniRP2.est_left Inputs.six) (MiniRP2.est_right_f Inputs.six).
Proof.
  apply (X4_stored_delta_is_measured_delta Inputs.six). reflexivity.
Defined.

(** X5: for a sequence of odd length [_estimate_gain] does not look at the
    last value: the delta it measures is the one [compress] would store
    for [data[:-1]], and the delta [compress] stores for [data] has one
    value more. *)
Theorem X5_estimator_skips_last_of_odd (data : list float) :
  Nat.odd (length data) = true ->
  Np.subtract (MiniRP2.est_left data) (MiniRP2.est_right_f data)
  = Np.subtract (MiniRP2.left_p (slice_to data (-1)))
                (MiniRP2.flipped_p (slice_to data (-1))) /\
  length (Np.map2 F64.sub (MiniRP2.left_p data) (MiniRP2.flipped_p data))
  = S (length (Spec.delta data)).
Proof.
  intros Ho. destruct (odd_half _ Ho) as [H2 H1].
  assert (Hs : slice_to data (-1) = firstn (2 * (length data / 2)) data).
  { unfold slice_to, norm_index. cbn [Z.ltb Z.compare].
    f_equal. lia. }
  assert (Hlen : length (slice_to data (-1)) = (2 * (length data / 2))%nat).
  { rewrite Hs, length_firstn. lia. }
  split.
  - rewrite compress_delta, est_delta_spec, stored_delta_even.
    + now rewrite Hs, <- delta_drops_last.
    + rewrite Hlen. apply Nat.even_spec. now exists (length data / 2)%nat.
  - rewrite map2_length, left_p_length, flipped_p_length, Nat.min_id.
    unfold Spec.delta. rewrite map2_length, length_map, length_rev.
    rewrite !length_firstn, length_skipn. lia.
Qed.

Lemma X5_witness :
  Np.subtract (MiniRP2.est_left Inputs.base3) (MiniRP2.est_right_f Inputs.base3)
  = Np.subtract (MiniRP2.left_p (slice_to Inputs.base3 (-1)))
                (MiniRP2.flipped_p (slice_to Inputs.base3 (-1))) /\
  length (Np.map2 F64.sub (MiniRP2.left_p Inputs.base3)
                  (MiniRP2.flipped_p Inputs.base3))
  = S (length (Spec.delta Inputs.base3)).
Proof.
  apply (X5_estimator_skips_last_of_odd Inputs.base3). reflexivity.
Defined.

(** ** What [hybrid_compress] hands back *)

Lemma try_family_inv (L : Collab) (data : list float) (levels : Z)
    (thresh_factor : float) (family : string) (c : candidate) :
  try_family L data levels thresh_factor family = Ok c ->
  exists approx details a,
    wavedec L data family levels = Ok (approx :: details) /\
    packed_of_family L data levels thresh_factor family = Ok a /\
    MiniRP2.compress L approx = Ok (a_approx a, a_seam a) /\
    a_details a
    = map (fun d => Np.tobytes (Np.astype_f32 (threshold thresh_factor d)))
          details /\
    a_orig_len a = length data /\ a_wavelet a = family /\
    a_levels a = levels /\
    c_bytes c = serialize L a /\ c_coeffs c = approx :: details /\
    c_seam c = a_seam a.
Proof.
  unfold try_family. intros H.
  destruct (wavedec L data family levels) as [[|approx details]|e] eqn:Hw;
    try discriminate H.
  cbn [bind] in H.
  destruct (MiniRP2.compress L approx) as [[blk seam]|e] eqn:Hc;
    try discriminate H.
  cbn [bind] in H. injection H as <-.
  eexists approx, details, _.
  split; [reflexivity|]. split.
  { unfold packed_of_family. rewrite Hw. cbn [bind]. rewrite Hc.
    cbn [bind]. reflexivity. }
  cbn [a_approx a_seam a_details a_orig_len a_wavelet a_levels
       c_bytes c_coeffs c_seam].
  rewrite map_map. split; [exact Hc|]. repeat split; reflexivity.
Qed.

Lemma hybrid_compress_inv (L : Collab) (data : list float)
    (families : list string) (levels : Z) (thresh_factor : float)
    (compressed : bytes) (coeffs : option (list (list float)))
    (fam : option string) :
  hybrid_compress L data families levels thresh_factor
  = Ok (compressed, coeffs, fam) ->
  exists family c,
    In family families /\
    try_family L data levels thresh_factor family = Ok c /\
    compressed = c_bytes c /\ coeffs = Some (c_coeffs c) /\
    fam = Some family.
Proof.
  unfold hybrid_compress. intros H.
  pose proof (select_selected L data levels thresh_factor families) as Hs.
  destruct Hs as [[Hst _]|(family & c & Hst & pre & post & Hf & Ht & _)].
  - rewrite Hst in H. discriminate H.
  - rewrite Hst in H. cbn in H. injection H as <- <- <-.
    exists family, c. repeat split; try assumption; try reflexivity.
    + rewrite Hf. apply in_or_app. right. left. reflexivity.
    + f_equal. now apply try_family_name in Ht.
Qed.

(** X6: what [hybrid_compress] returns belongs to one family of
    [families]: the returned coefficients are the output of [wavedec] for
    it, not thresholded, and the bytes are the serialised dict with the
    approximation as [rp2.compress] gave it, the detail bands thresholded
    and cast to float32, [orig_len = len(data)] and the family's name and
    [levels]. *)
Theorem X6_result_of_hybrid_compress (L : Collab) (data : list float)
    (families : list string) (levels : Z) (thresh_factor : float)
    (compressed : bytes) (coeffs : option (list (list float)))
    (fam : option string) :
  hybrid_compress L data families levels thresh_factor
  = Ok (compressed, coeffs, fam) ->
  exists family approx details a,
    In family families /\ fam = Some family /\
    wavedec L data family levels = Ok (approx :: details) /\
    coeffs = Some (approx :: details) /\
    compressed = serialize L a /\
    MiniRP2.compress L approx = Ok (a_approx a, a_seam a) /\
    a_details a
    = map (fun d => Np.tobytes (Np.astype_f32 (threshold thresh_factor d)))
          details /\
    a_orig_len a = length data /\ a_wavelet a = family /\
    a_levels a = levels.
Proof.
  intros H. apply hybrid_compress_inv in H.
  destruct H as (family & c & Hin & Ht & -> & -> & ->).
  apply try_family_inv in Ht.
  destruct Ht as (approx & details & a & Hw & _ & Hc & Hd & Ho & Hwv & Hl
                  & Hb & Hco & _).
  exists family, approx, details, a.
  rewrite Hco, Hb. repeat split; try assumption; reflexivity.
Qed.

Lemma X6_witness :
  exists compressed family approx details a,
    hybrid_compress Ref.L Examples.short default_families default_levels
      default_thresh_factor
    = Ok (compressed, Some (approx :: details), Some family) /\
    compressed = serialize Ref.L a /\
    a_orig_len a = 4%nat /\ a_wavelet a = family.
Proof.
  destruct (hybrid_compress Ref.L Examples.short default_families
              default_levels default_thresh_factor)
    as [[[compressed coeffs] fam]|e] eqn:H;
    [|vm_compute in H; discriminate H].
  destruct (X6_result_of_hybrid_compress Ref.L Examples.short
              default_families default_levels default_thresh_factor
              compressed coeffs fam H)
    as (family & approx & details & a & _ & -> & _ & -> & Hb & _ & _ & Ho
        & Hw & _).
  exists compressed, family, approx, details, a.
  repeat split; assumption || reflexivity.
Defined.

(** X7: the body of the [try] for one family can fail in three ways only:
    [wavedec] raises, it returns no array at all, or the approximation
    band is coded with a seam and its header is too long for the four
    length bytes.  Thresholding, the casts and the serialisation add no
    failure. *)
Theorem X7_try_family_failures (L : Collab) (data : list float)
    (levels : Z) (thresh_factor : float) (family : string) (e : pyerr) :
  try_family L data levels thresh_factor family = Err e ->
  wavedec L data family levels = Err e \/
  (wavedec L data family levels = Ok [] /\ e = IndexError) \/
  (exists approx details,
      wavedec L data family levels = Ok (approx :: details) /\
      e = OverflowError /\ (512 <= length approx)%nat /\
      2 ^ 32 <= Z.of_nat (length (Spec.header_bytes L approx))).
Proof.
  unfold try_family. intros H.
  destruct (wavedec L data family levels) as [[|approx details]|e'] eqn:Hw.
  - right. left. cbn [bind] in H. injection H as <-. now split.
  - right. right. cbn [bind] in H.
    pose proof (compress_outcomes L approx) as Hc.
    destruct (MiniRP2.compress L approx) as [[blk seam]|e'] eqn:Hcomp.
    + discriminate H.
    + cbn [bind] in H. injection H as <-.
      destruct Hc as (-> & Hn & Hlen).
      exists approx, details. repeat split; assumption.
  - left. cbn [bind] in H. injection H as <-. reflexivity.
Qed.

Lemma X7_witness :
  wavedec Ref.L Examples.short "haar9" 5 = Err ValueError \/
  (wavedec Ref.L Examples.short "haar9" 5 = Ok [] /\ ValueError = IndexError)
  \/
  (exists approx details,
      wavedec Ref.L Examples.short "haar9" 5 = Ok (approx :: details) /\
      ValueError = OverflowError /\ (512 <= length approx)%nat /\
      2 ^ 32 <= Z.of_nat (length (Spec.header_bytes Ref.L approx))).
Proof.
  apply (X7_try_family_failures Ref.L Examples.short 5 F64.two "haar9").
  vm_compute. reflexivity.
Defined.

(** ** The benchmark's view of the artifact *)

Lemma norm_index_le (len : nat) (i : Z) : (norm_index len i <= len)%nat.
Proof.
  unfold norm_index. destruct (i <? 0) eqn:E; [apply Z.ltb_lt in E|]; lia.
Qed.

Lemma viz_delta_total (approx : list float) (seam : Z) :
  exists d, Bench.viz_delta approx seam = Ok d /\
            length d = norm_index (length approx) seam.
Proof.
  unfold Bench.viz_delta.
  set (left := slice_to approx seam).
  set (flipped :=
         Np.negative
           (rev (slice approx seam (seam + Z.of_nat (length left))))).
  assert (Hl : length left = norm_index (length approx) seam).
  { unfold left, slice_to. rewrite length_firstn.
    pose proof (norm_index_le (length approx) seam). lia. }
  assert (Hf : (length flipped <= length left)%nat).
  { unfold flipped, Np.negative, slice.
    rewrite length_map, length_rev, length_firstn, length_skipn, Hl.
    unfold norm_index.
    destruct (seam <? 0) eqn:E1;
      [apply Z.ltb_lt in E1|apply Z.ltb_ge in E1];
      match goal with |- context [?x <? 0] =>
        destruct (x <? 0) eqn:E2;
          [apply Z.ltb_lt in E2|apply Z.ltb_ge in E2] end;
      lia. }
  unfold Bench.pad_width.
  replace (Z.of_nat (length left) - Z.of_nat (length flipped) <? 0)
    with false by (symmetry; apply Z.ltb_ge; lia).
  cbn [bind].
  rewrite subtract_same_length.
  - eexists. split; [reflexivity|].
    rewrite map2_length, length_app, repeat_length. lia.
  - rewrite length_app, repeat_length. lia.
Qed.

Lemma viz_delta_at_half (approx : list float) :
  Bench.viz_delta approx (Z.of_nat (length approx / 2))
  = Ok (Spec.delta approx).
Proof.
  pose proof (half_le_rest (length approx)) as Hh.
  unfold Bench.viz_delta.
  set (m := (length approx / 2)%nat) in *.
  assert (Hleft : slice_to approx (Z.of_nat m) = firstn m approx).
  { unfold slice_to. rewrite norm_index_nat. f_equal. lia. }
  rewrite Hleft.
  assert (Hlen : length (firstn m approx) = m)
    by (rewrite length_firstn; lia).
  rewrite Hlen.
  assert (Hs : slice approx (Z.of_nat m) (Z.of_nat m + Z.of_nat m)
               = firstn m (skipn m approx)).
  { unfold slice. rewrite <- Nat2Z.inj_add, !norm_index_nat.
    replace (Nat.min (length approx) m) with m by lia.
    replace (Nat.min (length approx) (m + m) - m)%nat with m by lia.
    reflexivity. }
  rewrite Hs.
  assert (Hfl : length (Np.negative (rev (firstn m (skipn m approx)))) = m).
  { unfold Np.negative.
    rewrite length_map, length_rev, length_firstn, length_skipn. lia. }
  rewrite Hfl. unfold Bench.pad_width. rewrite Z.sub_diag.
  cbn [Z.ltb Z.compare bind Z.to_nat repeat].
  rewrite app_nil_r.
  rewrite subtract_same_length by (rewrite Hfl; exact Hlen).
  reflexivity.
Qed.

(** X8: the delta of the third panel of [visualize_hybrid] is computed
    for every integer seam without an exception (the pad width is never
    negative and the two operands of the subtraction have one length),
    it has as many values as [approx[:seam]], and at the seam that
    [rp2.compress] reports, [len(approx) // 2], it is the delta that
    [_estimate_gain] measured. *)
Theorem X8_viz_delta (approx : list float) :
  (forall seam : Z,
      exists d, Bench.viz_delta approx seam = Ok d /\
                length d = length (slice_to approx seam)) /\
  Ok (Spec.delta approx)
  = Np.subtract (MiniRP2.est_left approx) (MiniRP2.est_right_f approx) /\
  Bench.viz_delta approx (Z.of_nat (length approx / 2))
  = Ok (Spec.delta approx).
Proof.
  split; [|split].
  - intros seam. destruct (viz_delta_total approx seam) as (d & Hd & Hl).
    exists d. split; [exact Hd|].
    unfold slice_to. rewrite length_firstn, Hl.
    pose proof (norm_index_le (length approx) seam). lia.
  - symmetry. apply est_delta_spec.
  - apply viz_delta_at_half.
Qed.

Lemma hybrid_decompress_text (L : Collab) (a : artifact)
    (compressed : bytes) :
  deserialize L compressed = Ok (packed_json a) ->
  hybrid_decompress L compressed = Err TypeError.
Proof.
  intros Hd. unfold hybrid_decompress. rewrite Hd. cbn [bind].
  change (getitem (packed_json a) "approx")
    with (Ok (JStr (bytes_repr (a_approx a)))).
  change (getitem (packed_json a) "seam") with (Ok (json_of_seam (a_seam a))).
  cbn [bind]. destruct (a_seam a); reflexivity.
Qed.

Lemma chosen_artifact (L : Collab) (data : list float)
    (families : list string) (levels : Z) (thresh_factor : float)
    (compressed : bytes) (coeffs : option (list (list float)))
    (family : string) (a : artifact) :
  hybrid_compress L data families levels thresh_factor
  = Ok (compressed, coeffs, Some family) ->
  packed_of_family L data levels thresh_factor family = Ok a ->
  compressed = serialize L a /\
  exists approx details,
    coeffs = Some (approx :: details) /\
    MiniRP2.compress L approx = Ok (a_approx a, a_seam a).
Proof.
  intros H Ha. apply hybrid_compress_inv in H.
  destruct H as (family' & c & _ & Ht & -> & -> & Hf).
  injection Hf as <-.
  apply try_family_inv in Ht.
  destruct Ht as (approx & details & a' & _ & Ha' & Hc & _ & _ & _ & _
                  & Hb & Hco & _).
  rewrite Ha in Ha'. injection Ha' as <-.
  split; [exact Hb|]. exists approx, details. rewrite Hco. now split.
Qed.

(** X9: [run_benchmark] reads the seam back from the artifact and hands
    it to [visualize_hybrid] with the coefficients.  When the serialised
    dict comes back from the backend and the parser, the seam read is the
    one [rp2.compress] reported for the approximation band, and the third
    panel shows the delta that [_estimate_gain] measured on that band when
    there is a seam, and no delta when there is none. *)
Theorem X9_delta_panel (L : Collab) (data : list float)
    (families : list string) (levels : Z) (thresh_factor : float)
    (compressed : bytes) (coeffs : option (list (list float)))
    (family : string) (a : artifact) :
  hybrid_compress L data families levels thresh_factor
  = Ok (compressed, coeffs, Some family) ->
  packed_of_family L data levels thresh_factor family = Ok a ->
  deserialize L (serialize L a) = Ok (packed_json a) ->
  Bench.extract_seam L compressed = json_of_seam (a_seam a) /\
  exists approx details,
    coeffs = Some (approx :: details) /\
    Bench.viz_panel coeffs (Bench.extract_seam L compressed)
    = Ok (match a_seam a with
          | Some _ => Some (Spec.delta approx)
          | None => None
          end).
Proof.
  intros H Ha Hd.
  destruct (chosen_artifact _ _ _ _ _ _ _ _ _ H Ha)
    as (-> & approx & details & -> & Hc).
  assert (Hs : Bench.extract_seam L (serialize L a) = json_of_seam (a_seam a)).
  { unfold Bench.extract_seam. rewrite Hd. reflexivity. }
  split; [exact Hs|]. exists approx, details. split; [reflexivity|].
  rewrite Hs. unfold Bench.viz_panel. cbn [bind].
  destruct (a_seam a) as [mid|] eqn:Hseam; [|reflexivity].
  apply compress_symmetric_inv in Hc. destruct Hc as (-> & _).
  cbn [json_of_seam as_int bind]. rewrite viz_delta_at_half. reflexivity.
Qed.

Lemma X9_witness :
  exists compressed approx details,
    hybrid_compress Ref.L Inputs.mirrored default_families default_levels
      default_thresh_factor
    = Ok (compressed, Some (approx :: details), Some "db4"%string) /\
    Bench.extract_seam Ref.L compressed = JInt 256 /\
    Bench.viz_panel (Some (approx :: details))
      (Bench.extract_seam Ref.L compressed)
    = Ok (Some (Spec.delta approx)).
Proof.
  destruct (hybrid_compress Ref.L Inputs.mirrored default_families
              default_levels default_thresh_factor)
    as [[[compressed coeffs] fam]|e] eqn:H;
    [|vm_compute in H; discriminate H].
  assert (Hfam : fam = Some "db4"%string).
  { assert (H' : match hybrid_compress Ref.L Inputs.mirrored default_families
                         default_levels default_thresh_factor with
                 | Ok (_, _, f) => f
                 | Err _ => None
                 end = Some "db4"%string) by (vm_compute; reflexivity).
    rewrite H in H'. exact H'. }
  subst fam.
  destruct (packed_of_family Ref.L Inputs.mirrored default_levels
              default_thresh_factor "db4") as [a|e] eqn:Ha;
    [|vm_compute in Ha; discriminate Ha].
  assert (Hseam : a_seam a = Some 256%nat).
  { assert (H' : match packed_of_family Ref.L Inputs.mirrored default_levels
                         default_thresh_factor "db4" with
                 | Ok a => a_seam a
                 | Err _ => None
                 end = Some 256%nat) by (vm_compute; reflexivity).
    rewrite Ha in H'. exact H'. }
  assert (Hd : deserialize Ref.L (serialize Ref.L a) = Ok (packed_json a)).
  { assert (H' : match packed_of_family Ref.L Inputs.mirrored default_levels
                         default_thresh_factor "db4" with
                 | Ok a => deserialize Ref.L (serialize Ref.L a)
                           = Ok (packed_json a)
                 | Err _ => True
                 end) by (vm_compute; reflexivity).
    rewrite Ha in H'. exact H'. }
  destruct (X9_delta_panel Ref.L Inputs.mirrored default_families
              default_levels default_thresh_factor compressed coeffs "db4"
              a H Ha Hd) as (Hs & approx & details & -> & Hp).
  rewrite Hseam in Hs, Hp.
  exists compressed, approx, details.
  split; [reflexivity|]. split; [exact Hs|exact Hp].
Defined.

(** X10: the reconstruction line of [visualize_hybrid],
    [hybrid_decompress(hybrid_compress(data)[0])], raises TypeError
    whenever the serialised dict comes back from the backend and the
    parser: the approximation comes back as text. *)
Theorem X10_viz_recon_raises (L : Collab) (data : list float)
    (compressed : bytes) (coeffs : option (list (list float)))
    (family : string) (a : artifact) :
  hybrid_compress L data default_families default_levels
    default_thresh_factor
  = Ok (compressed, coeffs, Some family) ->
  packed_of_family L data default_levels default_thresh_factor family
  = Ok a ->
  deserialize L (serialize L a) = Ok (packed_json a) ->
  Bench.viz_recon L data = Err TypeError.
Proof.
  intros H Ha Hd.
  destruct (chosen_artifact _ _ _ _ _ _ _ _ _ H Ha) as (Hb & _).
  unfold Bench.viz_recon. rewrite H. cbn [bind]. rewrite Hb.
  now apply hybrid_decompress_text with (a := a).
Qed.

Lemma X10_witness : Bench.viz_recon Ref.L Examples.short = Err TypeError.
Proof.
  destruct (hybrid_compress Ref.L Examples.short default_families
              default_levels default_thresh_factor)
    as [[[compressed coeffs] fam]|e] eqn:H;
    [|vm_compute in H; discriminate H].
  assert (Hfam : fam = Some "db4"%string).
  { assert (H' : match hybrid_compress Ref.L Examples.short default_families
                         default_levels default_thresh_factor with
                 | Ok (_, _, f) => f
                 | Err _ => None
                 end = Some "db4"%string) by (vm_compute; reflexivity).
    rewrite H in H'. exact H'. }
  subst fam.
  destruct (packed_of_family Ref.L Examples.short default_levels
              default_thresh_factor "db4") as [a|e] eqn:Ha;
    [|vm_compute in Ha; discriminate Ha].
  assert (Hd : deserialize Ref.L (serialize Ref.L a) = Ok (packed_json a)).
  { assert (H' : match packed_of_family Ref.L Examples.short default_levels
                         default_thresh_factor "db4" with
                 | Ok a => deserialize Ref.L (serialize Ref.L a)
                           = Ok (packed_json a)
                 | Err _ => True
                 end) by (vm_compute; reflexivity).
    rewrite Ha in H'. exact H'. }
  exact (X10_viz_recon_raises Ref.L Examples.short compressed coeffs "db4"
           a H Ha Hd).
Defined.

(** ** The test signal 'Piecewise Flipped' *)

Lemma neg_involutive (x : float) : F64.neg (F64.neg x) = x.
Proof. destruct x; cbn; rewrite ?negb_involutive; reflexivity. Qed.

Lemma negative_rev_involutive (a : list float) :
  Np.negative (rev (Np.negative (rev a))) = a.
Proof.
  unfold Np.negative. rewrite <- map_rev, rev_involutive, map_map.
  rewrite <- (map_id a) at 2. apply map_ext. apply neg_involutive.
Qed.

Lemma negative_app (a b : list float) :
  Np.negative (a ++ b) = Np.negative a ++ Np.negative b.
Proof. apply map_app. Qed.

Lemma piecewise_shape (base : list float) :
  let a := base ++ Np.negative (rev base) ++ base
           ++ Np.negative (rev base) ++ base in
  Bench.piecewise_flipped base = a ++ Np.negative (rev a).
Proof.
  cbv zeta. unfold Bench.piecewise_flipped. cbn [seq map Nat.even concat].
  rewrite !rev_app_distr, !negative_app, !negative_rev_involutive.
  rewrite app_nil_r, <- !app_assoc. reflexivity.
Qed.

Lemma map2_diag {A B} (f : A -> A -> B) (a : list A) :
  Np.map2 f a a = map (fun x => f x x) a.
Proof.
  unfold Np.map2. induction a as [|x a IH]; [reflexivity|].
  cbn. now rewrite <- IH.
Qed.

Lemma delta_antisym (a : list float) :
  Forall (fun x => F64.is_finite x = true) a ->
  Spec.delta (a ++ Np.negative (rev a)) = repeat F64.zero (length a).
Proof.
  intros Hfin.
  pose proof (antisym_shape a) as Hs. cbv zeta in Hs.
  destruct Hs as (Hm & _ & Hsk).
  unfold Spec.delta. cbv zeta. rewrite Hsk, Hm.
  rewrite firstn_app, Nat.sub_diag, firstn_O, app_nil_r, firstn_all.
  rewrite (firstn_all2 (n := length a) (Np.negative (rev a)))
    by (unfold Np.negative; rewrite length_map, length_rev; lia).
  fold (Np.negative (rev (Np.negative (rev a)))).
  rewrite negative_rev_involutive, map2_diag.
  clear Hm Hsk.
  induction Hfin as [|x l Hx _ IH]; [reflexivity|].
  cbn [map length repeat]. rewrite (sub_self x Hx), IH. reflexivity.
Qed.

(** X11: the test signal 'Piecewise Flipped' of [generate_tests], ten
    segments that alternate [base] and [-base[::-1]], is its own negated
    mirror image: it has [10 * len(base)] values, it reads [a] followed by
    [-a[::-1]] for [a] its first half, and for finite values the delta
    that [_estimate_gain] measures on it is zero everywhere. *)
Theorem X11_piecewise_flipped_is_antisymmetric (base : list float) :
  Forall (fun x => F64.is_finite x = true) base ->
  length (Bench.piecewise_flipped base) = (10 * length base)%nat /\
  Bench.piecewise_flipped base
  = firstn (5 * length base) (Bench.piecewise_flipped base)
    ++ Np.negative
         (rev (firstn (5 * length base) (Bench.piecewise_flipped base))) /\
  Np.subtract (MiniRP2.est_left (Bench.piecewise_flipped base))
              (MiniRP2.est_right_f (Bench.piecewise_flipped base))
  = Ok (repeat F64.zero (5 * length base)).
Proof.
  intros Hfin. rewrite est_delta_spec.
  pose proof (piecewise_shape base) as Hsh. cbv zeta in Hsh.
  set (a := base ++ Np.negative (rev base) ++ base
            ++ Np.negative (rev base) ++ base) in *.
  assert (Hn : length (Np.negative (rev base)) = length base)
    by (unfold Np.negative; now rewrite length_map, length_rev).
  assert (Ha : length a = (5 * length base)%nat).
  { unfold a. rewrite !length_app, Hn. lia. }
  assert (Hfn : Forall (fun x => F64.is_finite x = true)
                       (Np.negative (rev base))).
  { unfold Np.negative. apply Forall_map. apply Forall_rev.
    eapply Forall_impl; [|exact Hfin].
    intros x Hx. destruct x; try discriminate Hx; reflexivity. }
  assert (Hfirst : firstn (5 * length base) (Bench.piecewise_flipped base)
                   = a).
  { rewrite Hsh, <- Ha, firstn_app, Nat.sub_diag, firstn_O, app_nil_r.
    apply firstn_all. }
  rewrite Hfirst. split; [|split].
  - rewrite Hsh, length_app. unfold Np.negative at 1.
    rewrite length_map, length_rev. lia.
  - exact Hsh.
  - rewrite Hsh, delta_antisym.
    + now rewrite Ha.
    + unfold a. repeat (apply Forall_app; split); assumption.
Qed.

Lemma X11_witness :
  length (Bench.piecewise_flipped Inputs.base3) = 30%nat /\
  Np.subtract (MiniRP2.est_left (Bench.piecewise_flipped Inputs.base3))
              (MiniRP2.est_right_f (Bench.piecewise_flipped Inputs.base3))
  = Ok (repeat F64.zero 15).
Proof.
  destruct (X11_piecewise_flipped_is_antisymmetric Inputs.base3)
    as (H1 & _ & H3).
  - repeat constructor.
  - split; [exact H1|exact H3].
Defined.

(** ** A delta without variance *)

Lemma shr_fexp_snd (prec emax m ex : Z) (l : location) :
  ex <= fexp prec emax (Zdigits2 m + ex) ->
  snd (shr_fexp prec emax m ex l) = fexp prec emax (Zdigits2 m + ex).
Proof.
  intros H. unfold shr_fexp.
  destruct (fexp prec emax (Zdigits2 m + ex) - ex) as [|p|p] eqn:E;
    cbn [shr snd]; lia.
Qed.

(** Rounding a positive mantissa well above the least exponent gives an
    infinity or a well-formed number whose exponent is not below the one
    given. *)
Lemma round_aux_shape (s : bool) (m ex : Z) (l : location) :
  0 < m ->
  ex <= fexp F64.prec F64.emax (Zdigits2 m + ex) ->
  emin F64.prec F64.emax < ex ->
  binary_round_aux F64.prec F64.emax s m ex l = S754_infinity s \/
  exists m' e',
    binary_round_aux F64.prec F64.emax s m ex l = S754_finite s m' e' /\
    bounded F64.prec F64.emax m' e' = true /\ ex <= e'.
Proof.
  intros Hm Hex Hmin.
  assert (Hprec : 0 < F64.prec) by reflexivity.
  pose proof (round_aux_valid F64.prec F64.emax Hprec s m ex l
                ltac:(lia) (fun _ => Hex) ltac:(lia)) as Hvalid.
  revert Hvalid. unfold binary_round_aux.
  pose proof (shr_fexp_spec F64.prec F64.emax Hprec m ex l Hm Hex) as H1.
  pose proof (shr_fexp_snd F64.prec F64.emax m ex l Hex) as Hs1.
  cbv zeta in H1.
  destruct (shr_fexp F64.prec F64.emax m ex l) as [mrs' e'].
  cbn [fst snd] in H1, Hs1. destruct H1 as (Hnn & Hz & Hc).
  assert (He' : ex <= e') by lia.
  assert (Hpos : 0 < shr_m mrs').
  { destruct (Z.eq_dec (shr_m mrs') 0) as [H0|H0]; [|lia].
    specialize (Hz H0). lia. }
  pose proof (round_nearest_even_range (shr_m mrs') (loc_of_shr_record mrs'))
    as Hr.
  set (m1 := round_nearest_even (shr_m mrs') (loc_of_shr_record mrs')) in *.
  assert (Hm1 : 0 < m1) by lia.
  assert (Hex' : e' <= fexp F64.prec F64.emax (Zdigits2 m1 + e')).
  { rewrite fexp_max. specialize (Hc Hpos). rewrite fexp_max in Hc.
    pose proof (Zdigits2_mono (shr_m mrs') m1 ltac:(lia) ltac:(lia)).
    lia. }
  pose proof (shr_fexp_spec F64.prec F64.emax Hprec m1 e' loc_Exact Hm1 Hex')
    as H2.
  pose proof (shr_fexp_snd F64.prec F64.emax m1 e' loc_Exact Hex') as Hs2.
  cbv zeta in H2.
  destruct (shr_fexp F64.prec F64.emax m1 e' loc_Exact) as [mrs'' e''].
  cbn [fst snd] in H2, Hs2. destruct H2 as (Hnn2 & Hz2 & _).
  assert (He'' : e' <= e'') by lia.
  destruct (shr_m mrs'') as [|q|q] eqn:Hq; try lia.
  destruct (e'' <=? F64.emax - F64.prec) eqn:Hle; intros Hvalid.
  - right. exists q, e''. split; [reflexivity|].
    split; [exact Hvalid|lia].
  - left. reflexivity.
Qed.

Lemma iter_xO_value (m d : positive) :
  Zpos (Pos.iter xO m d) = Zpos m * 2 ^ Zpos d.
Proof.
  induction d as [|d IH] using Pos.peano_ind.
  - cbn. lia.
  - rewrite Pos.iter_succ, Pos2Z.inj_xO, IH, Pos2Z.inj_succ, Z.pow_succ_r
      by lia. lia.
Qed.

Lemma of_Z_shape (p : positive) :
  2 ^ 14 <= Zpos p ->
  F64.of_Z (Zpos p) = S754_infinity false \/
  exists m e,
    F64.of_Z (Zpos p) = S754_finite false m e /\
    bounded F64.prec F64.emax m e = true /\ -38 <= e.
Proof.
  intros Hp.
  assert (Hd : 15 <= Zpos (digits2_pos p)).
  { pose proof (digits2_bounds p) as [_ Hu].
    destruct (Z.lt_ge_cases (Zpos (digits2_pos p)) 15) as [H|H]; [|exact H].
    assert (2 ^ Zpos (digits2_pos p) <= 2 ^ 14)
      by (apply Z.pow_le_mono_r; lia). lia. }
  unfold F64.of_Z. cbn [binary_normalize]. unfold binary_round, shl_align.
  set (E := fexp F64.prec F64.emax (Zpos (digits2_pos p) + 0)).
  assert (HE : E = Z.max (Zpos (digits2_pos p) + 0 - 53) (-1074))
    by reflexivity.
  assert (Hgoal : forall mz ez,
             0 < mz -> ez <= fexp F64.prec F64.emax (Zdigits2 mz + ez) ->
             -38 <= ez ->
             binary_round_aux F64.prec F64.emax false mz ez loc_Exact
             = S754_infinity false \/
             exists m e,
               binary_round_aux F64.prec F64.emax false mz ez loc_Exact
               = S754_finite false m e /\
               bounded F64.prec F64.emax m e = true /\ -38 <= e).
  { intros mz ez H1 H2 H3.
    destruct (round_aux_shape false mz ez loc_Exact H1 H2)
      as [Hi|(m & e & Hf & Hb & He)].
    - unfold emin, F64.prec, F64.emax. lia.
    - left. exact Hi.
    - right. exists m, e. repeat split; try assumption. lia. }
  destruct (E - 0) as [|d|d] eqn:Hn.
  - apply Hgoal; [lia| |lia]. cbn [Zdigits2]. fold E. lia.
  - apply Hgoal; [lia| |lia]. cbn [Zdigits2]. fold E. lia.
  - apply Hgoal; [lia| |lia]. cbn [Zdigits2]. unfold shift_pos.
    rewrite digits2_iter_xO.
    replace (Zpos (digits2_pos p) + Zpos d + E)
      with (Zpos (digits2_pos p) + 0) by lia.
    fold E. lia.
Qed.

Lemma normal_digits (m : positive) (e : Z) :
  bounded F64.prec F64.emax m e = true -> -1074 < e ->
  Zpos (digits2_pos m) = 53.
Proof.
  intros Hb He. destruct (bounded_inv m e Hb) as [Hc _].
  rewrite fexp_max in Hc. unfold F64.prec, emin, F64.emax in Hc. lia.
Qed.

(** Halving a normal number whose half is normal too is exact. *)
Lemma mul_half_exact (s : bool) (m : positive) (e : Z) :
  bounded F64.prec F64.emax m e = true -> -1073 <= e ->
  F64.mul (S754_finite s m e) F64.half = S754_finite s m (e - 1).
Proof.
  intros Hb Hlow. destruct (bounded_inv m e Hb) as [Hc He].
  pose proof (normal_digits m e Hb ltac:(lia)) as Hd.
  assert (Hmul : F64.mul (S754_finite s m e) F64.half
                 = binary_round_aux F64.prec F64.emax s
                     (Zpos (Pos.mul 4503599627370496 m)) (-53 + e) loc_Exact).
  { unfold F64.mul, F64.half, SFmul.
    rewrite Pos.mul_comm, Z.add_comm, xorb_false_r. reflexivity. }
  rewrite Hmul. clear Hmul.
  unfold binary_round_aux, shr_fexp.
  cbn [Pos.mul Zdigits2 digits2_pos shr_record_of_loc].
  match goal with
  | |- context [fexp F64.prec F64.emax (Z.pos ?d + (-53 + e)) - (-53 + e)] =>
      replace (fexp F64.prec F64.emax (Z.pos d + (-53 + e)) - (-53 + e))
        with 52
        by (replace (Z.pos d + (-53 + e))
              with (Z.pos (digits2_pos m) + (e - 1)) by lia;
            rewrite fexp_max, Hd; unfold F64.prec, emin, F64.emax; lia)
  end.
  cbn [shr iter_pos shr_1 orb shr_m loc_of_shr_record round_nearest_even
       Zdigits2].
  replace (-53 + e + 52) with (e - 1) by lia.
  replace (fexp F64.prec F64.emax (Z.pos (digits2_pos m) + (e - 1)) - (e - 1))
    with 0
    by (rewrite fexp_max, Hd; unfold F64.prec, emin, F64.emax; lia).
  cbn [shr shr_m].
  replace (e - 1 <=? F64.emax - F64.prec) with true; [reflexivity|].
  symmetry. apply Z.leb_le. unfold F64.emax, F64.prec. lia.
Qed.

Lemma round_false_not_below_zero (q : positive) (e : Z) :
  F64.ltb (binary_round F64.prec F64.emax false q e) F64.zero = false.
Proof.
  unfold binary_round, binary_round_aux.
  destruct (shl_align _ _ _) as [mz ez].
  destruct (shr_fexp _ _ _ _ _) as [mrs' e'].
  destruct (shr_fexp _ _ _ _ _) as [mrs'' e''].
  destruct (shr_m mrs''); try reflexivity.
  destruct (e'' <=? _); reflexivity.
Qed.

Lemma sub_2000_not_below_zero (m : positive) (e : Z) :
  bounded F64.prec F64.emax m e = true -> -39 <= e ->
  F64.ltb (F64.sub (S754_finite false m e) F64.c2000) F64.zero = false.
Proof.
  intros Hb He.
  pose proof (normal_digits m e Hb ltac:(lia)) as Hd.
  pose proof (digits2_bounds m) as [Hl _]. rewrite Hd in Hl.
  unfold F64.sub, F64.c2000, SFsub. cbv zeta.
  replace (Z.min e (-42)) with (-42) by lia.
  unfold shl_align. change (-42 - -42) with 0.
  destruct (-42 - e) as [|d|d] eqn:Hsh; try lia.
  cbn [fst cond_Zopp]. unfold shift_pos.
  pose proof (iter_xO_value m d) as Hv.
  assert (Hd3 : 3 <= Zpos d) by lia.
  assert (H8 : 2 ^ 3 <= 2 ^ Zpos d) by (apply Z.pow_le_mono_r; lia).
  assert (Hbig : 8796093022208000 < Zpos (Pos.iter xO m d)).
  { rewrite Hv. change (2 ^ 3) with 8 in H8.
    change (2 ^ (53 - 1)) with 4503599627370496 in Hl. nia. }
  destruct (Zpos (Pos.iter xO m d) - 8796093022208000) as [|q|q] eqn:Hq;
    try lia.
  cbn [binary_normalize]. apply round_false_not_below_zero.
Qed.

Lemma gain_nan (n : nat) : Spec.gain n S754_nan = S754_nan.
Proof.
  unfold Spec.gain. cbn [F64.sub SFsub F64.one].
  destruct (F64.of_Z (Z.of_nat n * 32)); reflexivity.
Qed.

Lemma gain_zero_ratio (n : nat) (s : bool) :
  (512 <= n)%nat ->
  F64.ltb (Spec.gain n (S754_zero s)) F64.zero = false.
Proof.
  intros Hn. unfold Spec.gain.
  replace (F64.sub F64.one (S754_zero s)) with F64.one
    by (destruct s; reflexivity).
  destruct (Z.of_nat n * 32) as [|p|p] eqn:Hp; try lia.
  destruct (of_Z_shape p) as [Hi|(m & e & Hf & Hb & He)]; [lia| |].
  - rewrite Hi. reflexivity.
  - rewrite Hf, (mul_one_r false m e Hb).
    rewrite (mul_half_exact false m e Hb) by lia.
    apply sub_2000_not_below_zero.
    + destruct (bounded_inv m e Hb) as [Hc Hu].
      pose proof (normal_digits m e Hb ltac:(lia)) as Hd.
      unfold bounded, canonical_mantissa. apply andb_true_intro. split.
      * apply Z.eqb_eq. rewrite fexp_max, Hd.
        unfold F64.prec, emin, F64.emax. lia.
      * apply Z.leb_le. unfold F64.prec, F64.emax. lia.
    + lia.
Qed.

(** X12: a delta without variance always wins.  For a sequence of at
    least 512 values whose delta has variance zero while its own variance
    is above zero, the gain is not below zero whatever [n] and the
    variance are, and [compress] takes the symmetric branch. *)
Theorem X12_zero_variance_delta_is_symmetric (L : Collab)
    (data : list float) :
  (512 <= length data)%nat ->
  F64.is_zero (np_var L (Spec.delta data)) = true ->
  F64.ltb F64.zero (np_var L data) = true ->
  Z.of_nat (length (Spec.header_bytes L data)) < 2 ^ 32 ->
  (exists g, MiniRP2._estimate_gain L data = Ok g /\
             F64.ltb g F64.zero = false /\ g <> MiniRP2.sentinel) /\
  MiniRP2.compress L data
  = Ok (Spec.block L data, Some (length data / 2)%nat).
Proof.
  intros Hn Hdv Hv Hlen.
  assert (Hg : exists g, MiniRP2._estimate_gain L data = Ok g /\
                         F64.ltb g F64.zero = false /\
                         g <> MiniRP2.sentinel).
  { rewrite estimate_gain_eq.
    replace (length data <? 512)%nat with false
      by (symmetry; apply Nat.ltb_ge; exact Hn).
    cbn [orb].
    destruct (np_var L (Spec.delta data)) as [sd|sd| |sd md ed];
      try discriminate Hdv.
    assert (Hge : F64.geb (S754_zero sd) (np_var L data) = false).
    { destruct (np_var L data) as [s|s| |s m e]; try discriminate Hv;
        destruct s; try discriminate Hv; reflexivity. }
    rewrite Hge. eexists. split; [reflexivity|].
    assert (Hr : Spec.ratio (S754_zero sd) (np_var L data) = S754_nan \/
                 exists s, Spec.ratio (S754_zero sd) (np_var L data)
                           = S754_zero s).
    { unfold Spec.ratio, F64.div.
      destruct (F64.add (np_var L data) F64.c1e_10) as [s|s| |s m e].
      - left. reflexivity.
      - right. eexists. reflexivity.
      - left. reflexivity.
      - right. eexists. reflexivity. }
    destruct Hr as [Hr|[s Hr]]; rewrite Hr.
    - rewrite gain_nan. split; [reflexivity|discriminate].
    - pose proof (gain_zero_ratio (length data) s Hn) as Hz.
      split; [exact Hz|]. intros Heq. rewrite Heq in Hz. discriminate Hz. }
  split; [exact Hg|].
  destruct Hg as (g & Hg & Hlt & _).
  now apply compress_symmetric with (g := g).
Qed.

Lemma X12_witness :
  MiniRP2.compress Ref.L Examples.antisym
  = Ok (Spec.block Ref.L Examples.antisym, Some 256%nat).
Proof.
  apply (X12_zero_variance_delta_is_symmetric Ref.L Examples.antisym).
  - vm_compute. apply le_n.
  - vm_compute. reflexivity.
  - vm_compute. reflexivity.
  - vm_compute. reflexivity.
Defined.

(** ** A band whose median magnitude is zero *)

(** X13: when the median of the magnitudes of a detail band is zero and
    the factor is a number, the threshold handed to pywt is zero: every
    coefficient that is not a zero is kept as it is, and every exact zero
    is replaced by NaN, the product of the zero and the factor
    [1 - 0 / 0]. *)
Theorem X13_zero_median_turns_zeros_into_nan (factor : float)
    (d : list float) :
  Forall (fun x => F64.valid x = true) d ->
  F64.is_finite factor = true ->
  F64.is_zero (Np.median (Np.absolute d)) = true ->
  threshold factor d
  = map (fun x => if F64.is_zero x then S754_nan else x) d.
Proof.
  intros Hd Hf Hm. apply threshold_zero; [exact Hd|].
  destruct (Np.median (Np.absolute d)) as [sm|sm| |sm mm em];
    try discriminate Hm.
  destruct factor as [s|s| |s m e]; try discriminate Hf;
    destruct s, sm; reflexivity.
Qed.

Lemma X13_witness :
  threshold F64.two Inputs.sparse = [S754_nan; S754_nan; F64.of_Z 5].
Proof.
  rewrite (X13_zero_median_turns_zeros_into_nan F64.two Inputs.sparse).
  - reflexivity.
  - vm_compute. repeat constructor.
  - reflexivity.
  - vm_compute. reflexivity.
Defined.
